(** * pymc-marketing: validation traits and the saturation registry

    A shallow embedding of [pymc_marketing/mmm/validating.py] and of the
    behaviour of [pymc_marketing/mmm/components/saturation.py] that the test
    module [tests/mmm/components/test_saturation.py] exercises.

    Conventions of the embedding.
    - A Python call either returns a value or raises: [outcome].
    - Methods are computations over a store holding the receiver ([self])
      and the [data] argument, so that "does not mutate" is a statement
      about the final store.
    - A [pd.DataFrame] is a finite map from column label to column; labels
      are strings and, as in the spec's "column set", unique.  Cells are
      integers (a date is its ordinal).
    - Python objects whose identity matters (function objects, transform
      instances, tag dictionaries) live in heaps indexed by references. *)

From stdpp Require Import gmap strings list fin_maps.
From Stdlib Require Import ZArith Lia QArith Qcanon.

Local Open Scope Z_scope.
Local Open Scope string_scope.

(** ** Python values and outcomes *)

Module Py.

(** The values an attribute such as [channel_columns] can hold.  The
    annotations promise a list or tuple of column names (or [None]); the
    validators test that promise with [isinstance], so the other shapes are
    part of the input space. *)
Inductive value : Type :=
| PyNone
| PyStr (s : string)
| PyInt (n : Z)
| PyList (xs : list string)
| PyTuple (xs : list string).

(** Exceptions.  The five first constructors are the [ValueError]s the
    validators raise themselves, told apart by their message and named as in
    the spec's taxonomy; the last two are raised by pandas. *)
Inductive exn : Type :=
| InvalidType          (* "... must be a list or tuple" *)
| EmptyCollection      (* "... must not be empty" *)
| MissingColumn        (* "... not in data" *)
| DuplicateValues      (* "... has repeated values" / "... contains duplicates" *)
| NegativeValue        (* "... contains negative values" *)
| AmbiguousTruthValue  (* ValueError: The truth value of a Series is ambiguous *)
| KeyError.            (* KeyError from DataFrame.__getitem__ *)

Inductive exn_class : Type := ValueError_cls | KeyError_cls.

Definition class_of (e : exn) : exn_class :=
  match e with
  | KeyError => KeyError_cls
  | _ => ValueError_cls
  end.

Inductive outcome (A : Type) : Type :=
| Returns (a : A)
| Raises (e : exn).
Arguments Returns {A} a.
Arguments Raises {A} e.

Definition raised {A} (o : outcome A) : bool :=
  match o with Returns _ => false | Raises _ => true end.

(** [isinstance(v, (list, tuple))], together with what the test tells the
    code that follows it: which of the two the value is, and its items. *)
Inductive seq_kind : Type := ListKind | TupleKind.

Definition as_sequence (v : value) : option (seq_kind * list string) :=
  match v with
  | PyList xs => Some (ListKind, xs)
  | PyTuple xs => Some (TupleKind, xs)
  | _ => None
  end.

(** [set(xs)] and [len] of it. *)
Definition py_set (xs : list string) : gset string := list_to_set xs.

End Py.
Import Py.

(** ** The slice of pandas the validators use *)

Module Pandas.

Abbreviation Series := list (only parsing).

(** A frame maps each column label to its column. *)
Abbreviation DataFrame := (gmap string (Series Z)).

(** The result of selecting a list of columns: a frame whose columns come in
    the order of the selection. *)
Abbreviation Selection A := (list (string * Series A)) (only parsing).

(** [data.columns], as far as membership goes. *)
Definition columns (data : DataFrame) : gset string := dom data.

(** [name in data.columns] *)
Definition in_columns (name : string) (data : DataFrame) : bool :=
  bool_decide (name ∈ columns data).

(** [set(names).issubset(data.columns)] *)
Definition issubset_columns (names : list string) (data : DataFrame) : bool :=
  bool_decide (py_set names ⊆ columns data).

(** [data[name]] for one label. *)
Definition getitem (data : DataFrame) (name : string) : outcome (Series Z) :=
  match data !! name with
  | Some col => Returns col
  | None => Raises KeyError
  end.

(** [Series.is_unique] *)
Definition is_unique (col : Series Z) : bool := bool_decide (NoDup col).

Fixpoint select (data : DataFrame) (names : list string) : option (Selection Z) :=
  match names with
  | [] => Some []
  | n :: rest =>
      match data !! n, select data rest with
      | Some col, Some sel => Some ((n, col) :: sel)
      | _, _ => None
      end
  end.

(** [data[key]] where [key] is a list or a tuple of names.  A list selects
    those columns and fails with [KeyError] when one is missing.  A tuple is
    read by [DataFrame.__getitem__] as ONE label; the labels of a frame are
    strings here, so no tuple is among them and the lookup fails with
    [KeyError]. *)
Definition getitem_sequence (data : DataFrame) (kind : seq_kind)
    (names : list string) : outcome (Selection Z) :=
  match kind with
  | ListKind =>
      match select data names with
      | Some sel => Returns sel
      | None => Raises KeyError
      end
  | TupleKind => Raises KeyError
  end.

(** [frame < 0], cell by cell, on the integer cells of this model, for which
    the comparison is total.  On a column of strings or dates pandas raises
    [TypeError] here; such columns are outside the model. *)
Definition lt_zero (sel : Selection Z) : Selection bool :=
  map (λ '(n, col), (n, map (λ v, bool_decide (v < 0)) col)) sel.

(** [DataFrame.any()] with its default [axis=0]: it reduces every column on
    its own and yields a Series with one boolean per column. *)
Definition any (sel : Selection bool) : Series (string * bool) :=
  map (λ '(n, col), (n, existsb id col)) sel.

(** [bool(series)], which is what [if series:] evaluates.  pandas refuses it
    for every Series, whatever its length or content
    ([NDFrame.__bool__] raises unconditionally). *)
Definition truth_of_series {A} (s : Series A) : outcome bool :=
  Raises AmbiguousTruthValue.

End Pandas.
Import Pandas.

(** ** Methods as computations over the receiver and the argument *)

Module Validating.

(** The attributes the four traits require of their host. *)
Record host : Type := Host {
  target_column : string;
  date_column : string;
  channel_columns : value;
  control_columns : value;
}.

(** What a validator call can see and could change: [self] and [data]. *)
Record store : Type := Store {
  self : host;
  data : DataFrame;
}.

Definition method (A : Type) : Type := store → outcome A * store.

Definition ret {A} (a : A) : method A := λ st, (Returns a, st).
Definition raise {A} (e : exn) : method A := λ st, (Raises e, st).
Definition bind {A B} (m : method A) (k : A → method B) : method B :=
  λ st, match m st with
        | (Returns a, st') => k a st'
        | (Raises e, st') => (Raises e, st')
        end.
(** Reading an attribute of [self], and reading the argument. *)
Definition attr {A} (field : host → A) : method A := λ st, (Returns (field (self st)), st).
Definition arg : method DataFrame := λ st, (Returns (data st), st).
(** A library call that may raise. *)
Definition call {A} (o : outcome A) : method A := λ st, (o, st).
(** Assignment to an attribute of [self] and rebinding of the argument's
    content: available to any method, used by none of the validators. *)
Definition set_self (h : host) : method unit := λ st, (Returns tt, Store h (data st)).
Definition set_data (d : DataFrame) : method unit := λ st, (Returns tt, Store (self st) d).

#[global] Instance method_ret : MRet method := @ret.
#[global] Instance method_bind : MBind method := λ A B k m, bind m k.

(** [if c: raise e] *)
Definition raise_if (c : bool) (e : exn) : method unit :=
  if c then raise e else ret tt.

(** [ValidateTargetColumn.validate_target] *)
Definition validate_target : method unit :=
  target ← attr target_column;
  d ← arg;
  raise_if (negb (in_columns target d)) MissingColumn.

(** [ValidateDateColumn.validate_date_col] *)
Definition validate_date_col : method unit :=
  date ← attr date_column;
  d ← arg;
  raise_if (negb (in_columns date d)) MissingColumn;;
  col ← call (getitem d date);
  raise_if (negb (is_unique col)) DuplicateValues.

(** [ValidateChannelColumns.validate_channel_columns] *)
Definition validate_channel_columns : method unit :=
  cols ← attr channel_columns;
  d ← arg;
  match as_sequence cols with
  | None => raise InvalidType
  | Some (kind, names) =>
      raise_if (length names =? 0)%nat EmptyCollection;;
      raise_if (negb (issubset_columns names d)) MissingColumn;;
      raise_if (negb (size (py_set names) =? length names)%nat) DuplicateValues;;
      sel ← call (getitem_sequence d kind names);
      negative ← call (truth_of_series (any (lt_zero sel)));
      raise_if negative NegativeValue
  end.

(** [ValidateControlColumns.validate_control_columns] *)
Definition validate_control_columns : method unit :=
  cols ← attr control_columns;
  d ← arg;
  match cols with
  | PyNone => ret tt
  | _ =>
      match as_sequence cols with
      | None => raise InvalidType
      | Some (_, names) =>
          raise_if (length names =? 0)%nat EmptyCollection;;
          raise_if (negb (issubset_columns names d)) MissingColumn;;
          raise_if (negb (size (py_set names) =? length names)%nat) DuplicateValues
      end
  end.

(** Calling a validator on a host and a frame. *)
Definition run {A} (m : method A) (h : host) (d : DataFrame) : outcome A * store :=
  m (Store h d).
Definition result {A} (m : method A) (h : host) (d : DataFrame) : outcome A :=
  fst (run m h d).

(** The four validators, by name. *)
Inductive validator : Type :=
| TargetValidator | DateValidator | ChannelValidator | ControlValidator.

Definition validator_method (v : validator) : method unit :=
  match v with
  | TargetValidator => validate_target
  | DateValidator => validate_date_col
  | ChannelValidator => validate_channel_columns
  | ControlValidator => validate_control_columns
  end.

(** A computation that hands back the store it was given, on every path. *)
Definition read_only {A} (m : method A) : Prop := ∀ st, snd (m st) = st.

(** The three tests both sequence validators make after [isinstance], as one
    computation. *)
Definition structural_checks (names : list string) (d : DataFrame) : method unit :=
  raise_if (length names =? 0)%nat EmptyCollection;;
  raise_if (negb (issubset_columns names d)) MissingColumn;;
  raise_if (negb (size (py_set names) =? length names)%nat) DuplicateValues.

(** What the last two statements of [validate_channel_columns] do once the
    structural tests have passed: the selection by a tuple is a [KeyError],
    and the truth value of the per-column Series that [.any()] returns is
    refused by pandas.  The [raise] of the negative-value error is never
    reached. *)
Definition channel_values_failure (kind : seq_kind) : exn :=
  match kind with
  | ListKind => AmbiguousTruthValue
  | TupleKind => KeyError
  end.

(** A host and a frame of the shape the traits expect, for the examples. *)
Definition toy_host : host :=
  Host "y" "date" (PyList ["x1"; "x2"]) (PyList ["temperature"; "holiday"]).

Definition toy_frame : DataFrame :=
  {[ "date" := [1; 2; 3]; "y" := [10; 12; 9];
     "x1" := [1; 0; 2]; "x2" := [3; 4; 0];
     "temperature" := [-5; 3; 8]; "holiday" := [0; 1; 0] ]}.

End Validating.

(** ** [validation_method]: tagging a function object *)

Module Tagging.

(** Object identity ([id(obj)]). *)
Definition ref : Type := nat.

(** A Python function object: its code, and the dict its attribute [_tags]
    refers to when the attribute is set. *)
Record function_object : Type := FunctionObject {
  code : string;
  tags_attr : option ref;
}.

(** Function objects and tag dictionaries live in separate stores, so that a
    dictionary may be reached from more than one function. *)
Record heap : Type := Heap {
  functions : gmap ref function_object;
  dicts : gmap ref (gmap string bool);
}.

(** [hasattr(method, "_tags")]; [None] when [method] is no object of the heap. *)
Definition hasattr_tags (m : ref) (h : heap) : option bool :=
  f ← functions h !! m;
  Some (bool_decide (is_Some (tags_attr f))).

(** [method._tags = {}]: a new, empty dict is bound to the attribute. *)
Definition setattr_tags_empty (m : ref) (h : heap) : option heap :=
  f ← functions h !! m;
  let t := fresh (dom (dicts h)) in
  Some (Heap (<[m := FunctionObject (code f) (Some t)]> (functions h))
             (<[t := ∅]> (dicts h))).

(** [method._tags[k] = v]: the dict the attribute refers to is updated in
    place. *)
Definition setitem_tags (m : ref) (k : string) (v : bool) (h : heap) : option heap :=
  f ← functions h !! m;
  t ← tags_attr f;
  tags ← dicts h !! t;
  Some (Heap (functions h) (<[t := <[k := v]> tags]> (dicts h))).

(** [validation_method(method)]; the result pairs the returned reference
    with the heap after the call.  [None] stands for a reference that
    denotes no object of the heap, which a running program never holds. *)
Definition validation_method (m : ref) (h : heap) : option (ref * heap) :=
  has ← hasattr_tags m h;
  h1 ← (if has : bool then Some h else setattr_tags_empty m h);
  h2 ← setitem_tags m "validation" true h1;
  Some (m, h2).

(** [method._tags], read through the attribute. *)
Definition tags_of (m : ref) (h : heap) : option (gmap string bool) :=
  f ← functions h !! m;
  t ← tags_attr f;
  dicts h !! t.

(** [m] is a function object of the heap, and its [_tags] attribute, when
    set, refers to a dict of the heap. *)
Definition function_at (h : heap) (m : ref) : Prop :=
  ∃ f, functions h !! m = Some f ∧
       ∀ t, tags_attr f = Some t → is_Some (dicts h !! t).

(** The heap of a module that has just defined [validate_target], and one in
    which the function already carries a tag. *)
Definition untagged_heap : heap :=
  Heap {[ 0%nat := FunctionObject "validate_target" None ]} ∅.

Definition tagged_heap : heap :=
  Heap {[ 0%nat := FunctionObject "validate_target" (Some 0%nat) ]}
       {[ 0%nat := {[ "slow" := false ]} ]}.

(** No [_tags] attribute refers to a dict outside the heap. *)
Definition heap_wf (h : heap) : Prop :=
  ∀ m f t, functions h !! m = Some f → tags_attr f = Some t →
           is_Some (dicts h !! t).

(** The dict the attribute [_tags] of [m] refers to, if any. *)
Definition tags_ref (m : ref) (h : heap) : option ref :=
  f ← functions h !! m; tags_attr f.

(** Two functions whose [_tags] attributes are one and the same dict. *)
Definition shares_tags (h : heap) (m m' : ref) : Prop :=
  ∃ t, tags_ref m h = Some t ∧ tags_ref m' h = Some t.

(** The decorator applied to one function after the other, as the four
    [@validation_method] lines of the module do when it is loaded. *)
Fixpoint decorate (ms : list ref) (h : heap) : option heap :=
  match ms with
  | [] => Some h
  | m :: rest =>
      match validation_method m h with
      | Some (_, h') => decorate rest h'
      | None => None
      end
  end.

(** The four validators as the module defines them, before any decorator
    has run. *)
Definition module_heap : heap :=
  Heap {[ 0%nat := FunctionObject "validate_target" None;
          1%nat := FunctionObject "validate_date_col" None;
          2%nat := FunctionObject "validate_channel_columns" None;
          3%nat := FunctionObject "validate_control_columns" None ]} ∅.

(** Two functions with one tag dict between them, as after
    [g.__dict__.update(f.__dict__)]. *)
Definition shared_heap : heap :=
  Heap {[ 0%nat := FunctionObject "f" (Some 0%nat);
          1%nat := FunctionObject "g" (Some 0%nat) ]}
       {[ 0%nat := {[ "slow" := true ]} ]}.

End Tagging.

(** ** The saturation registry and its transforms

    [pymc_marketing/mmm/components/saturation.py] is exercised by the test
    module but is not part of the sources at hand: what follows is modelled
    from the spec, with the names the test module imports. *)

Module Saturation.

Definition ref : Type := nat.

(** Modelled from the spec: the seven concrete [SaturationTransform] types
    of saturation.py, which is missing (§4.2, and the classes listed in
    [saturation_functions] of the test module). *)
Inductive curve : Type :=
| LogisticSaturation
| InverseScaledLogisticSaturation
| TanhSaturation
| TanhSaturationBaselined
| MichaelisMentenSaturation
| HillSaturation
| RootSaturation.

#[global] Instance curve_eq_dec : EqDecision curve.
Proof. solve_decision. Defined.

(** Modelled from the spec: the class attribute [lookup_name] of each type
    in the missing saturation.py, i.e. its canonical name (§4.2; the pairs
    of [test_get_saturation_function]). *)
Definition lookup_name (c : curve) : string :=
  match c with
  | LogisticSaturation => "logistic"
  | InverseScaledLogisticSaturation => "inverse_scaled_logistic"
  | TanhSaturation => "tanh"
  | TanhSaturationBaselined => "tanh_baselined"
  | MichaelisMentenSaturation => "michaelis_menten"
  | HillSaturation => "hill"
  | RootSaturation => "root"
  end.

(** Modelled from the spec: the fixed name table of the missing
    saturation.py, in the order §4.2 lists it. *)
Definition SATURATION_TRANSFORMATIONS : list (string * curve) :=
  (λ c, (lookup_name c, c)) <$>
    [LogisticSaturation; InverseScaledLogisticSaturation; TanhSaturation;
     TanhSaturationBaselined; MichaelisMentenSaturation; HillSaturation;
     RootSaturation].

(** Modelled from the spec: the [Prior] of the missing pymc_marketing/prior.py,
    a distribution kind with its keyword arguments (§3); [dims] is one of
    them (§4.4). *)
Inductive kwarg : Type :=
| Number (q : Qc)
| Text (s : string).

Record Prior : Type := MkPrior {
  distribution : string;
  parameters : gmap string kwarg;
}.

(** Modelled from the spec: the serialised form [{dist, kwargs}] of a prior
    and [{lookup_name, priors}] of a transform (§4.6), written by the missing
    [to_dict] and read by the missing [saturation_from_dict]. *)
Record prior_dict : Type := PriorDict {
  dist : string;
  kwargs : gmap string kwarg;
}.

Record saturation_dict : Type := SaturationDict {
  dict_lookup_name : string;
  dict_priors : gmap string prior_dict;
}.

(** Modelled from the spec: a transform of the missing saturation.py, one
    curve with its prior mapping and prefix (§3). *)
Record SaturationTransform : Type := Transform {
  curve_of : curve;
  function_priors : gmap string Prior;
  prefix : string;
}.

(** Modelled from the spec: the failures of the transform domain (§7).  §4.5
    requires the dataset to hold the transform's own variables and names no
    failure for a dataset that lacks one; it is [MissingParameters] here. *)
Inductive error : Type :=
| UnknownTransform (message : string)
| InvalidConfiguration
| MissingParameters.

Inductive result (A : Type) : Type :=
| Ok (a : A)
| Err (e : error).
Arguments Ok {A} a.
Arguments Err {A} e.

(** Transform instances, by identity. *)
Abbreviation heap := (gmap ref SaturationTransform).

(** What [resolve] accepts: a name or an instance. *)
Inductive key : Type :=
| Name (s : string)
| Instance (r : ref).

(** Labelled arrays.  The sampling dimensions [chain] and [draw] index every
    variable of a parameter dataset (§4.4), the grid dimension belongs to the
    curve, and the remaining, named dimensions are attached per variable. *)
Inductive dim : Type := Chain | Draw | Grid | Param (name : string).

#[global] Instance dim_eq_dec : EqDecision dim.
Proof. solve_decision. Defined.

#[global] Instance dim_countable : Countable dim.
Proof.
  refine (inj_countable'
    (λ d, match d with
          | Chain => inl 0%nat | Draw => inl 1%nat | Grid => inl 2%nat
          | Param s => inr s
          end)
    (λ x, match x with
          | inl 0%nat => Chain | inl 1%nat => Draw | inl _ => Grid
          | inr s => Param s
          end) _).
  by intros [].
Defined.

#[global] Instance Param_inj : Inj (=) (=) Param.
Proof. by intros ?? [= ->]. Qed.

Inductive label : Type :=
| IntLabel (n : Z)
| StrLabel (s : string)
| NumLabel (q : Qc).

(** A position along every dimension. *)
Definition index : Type := dim → nat.

Record DataVariable : Type := MkVariable {
  var_dims : list string;
  var_values : index → Qc;
}.

Record Dataset : Type := MkDataset {
  chain : list label;
  draw : list label;
  data_vars : gmap string DataVariable;
  coords : gmap string (list label);
}.

Record DataArray : Type := MkDataArray {
  name : string;
  dims : list dim;
  array_coords : gmap dim (list label);
  values : index → Qc;
}.

(** Modelled from the spec: [np.linspace(0, stop, num)], the evenly spaced
    grid of §4.5. *)
Definition linspace (stop : Qc) (num : nat) : list Qc :=
  (λ i : nat, stop * Qc_of_Z (Z.of_nat i) / Qc_of_Z (Z.of_nat (num - 1)))%Qc <$> seq 0 num.

(** [needle] is a contiguous part of [haystack]. *)
Definition occurs_in (needle haystack : string) : Prop :=
  ∃ pre post, haystack = pre +:+ needle +:+ post.

Section transforms.

(** What the spec leaves to each curve: its default priors, whose keys are
    its parameter names, and its elementwise formula. *)
Variable default_priors : curve → gmap string Prior.
Variable function : curve → Qc → (string → Qc) → Qc.

(** Modelled from the spec: the constructor of the missing saturation.py.
    The caller's priors override the curve's defaults and the prefix
    defaults to ["saturation"] (§3). *)
Definition new (c : curve) (priors : option (gmap string Prior))
    (pre : option string) : SaturationTransform :=
  Transform c (default ∅ priors ∪ default_priors c) (default "saturation" pre).

(** Modelled from the spec: equality of transforms, [__eq__] of the missing
    saturation.py (§3). *)
Definition equal (a b : SaturationTransform) : Prop :=
  curve_of a = curve_of b ∧
  function_priors a = function_priors b ∧
  prefix a = prefix b.

(** Modelled from the spec: [variable_mapping] of the missing saturation.py,
    from parameter name to [f"{prefix}_{param_name}"] (§3). *)
Definition variable_name (t : SaturationTransform) (param : string) : string :=
  prefix t +:+ "_" +:+ param.

Definition variable_mapping (t : SaturationTransform) : gmap string string :=
  map_imap (λ param _, Some (variable_name t param)) (default_priors (curve_of t)).

(** [variable_mapping.values()] *)
Definition own_variables (t : SaturationTransform) : list string :=
  snd <$> map_to_list (variable_mapping t).

(** Modelled from the spec: the message of [UnknownTransform], which
    enumerates the valid names (§4.2); its opening is the one
    [test_get_saturation_function_unknown] matches. *)
Definition unknown_message (s : string) : string :=
  "Unknown saturation function: " +:+ s +:+ ". Choose from " +:+
  String.concat ", " (fst <$> SATURATION_TRANSFORMATIONS).

(** Modelled from the spec: the case-sensitive look-up in the name table and
    the default construction on a hit (§4.2). *)
Definition default_instance (s : string) : result SaturationTransform :=
  match (list_to_map SATURATION_TRANSFORMATIONS : gmap string curve) !! s with
  | Some c => Ok (new c None None)
  | None => Err (UnknownTransform (unknown_message s))
  end.

(** Modelled from the spec: [_get_saturation_function] of the missing
    saturation.py, the spec's [resolve] (§4.2).  An instance is handed back
    as it is; a name yields a new object. *)
Definition _get_saturation_function (k : key) (h : heap) : result (ref * heap) :=
  match k with
  | Instance r => Ok (r, h)
  | Name s =>
      match default_instance s with
      | Ok t => let r := fresh (dom h) in Ok (r, <[r := t]> h)
      | Err e => Err e
      end
  end.

(** Modelled from the spec: [Prior(dist, **kwargs)], the distribution
    [from_dict] constructs afresh, and the dict a prior serialises to (§4.6). *)
Definition prior_from_dict (d : prior_dict) : Prior :=
  MkPrior (dist d) (kwargs d).

Definition prior_to_dict (p : Prior) : prior_dict :=
  PriorDict (distribution p) (parameters p).

(** Modelled from the spec: [saturation_from_dict] of the missing
    saturation.py.  It resolves [lookup_name] through the registry, then
    overrides the prior of each parameter the dict names (§4.6). *)
Definition override_prior (param : string) (d : prior_dict)
    (priors : gmap string Prior) : gmap string Prior :=
  <[param := prior_from_dict d]> priors.

Definition saturation_from_dict (data : saturation_dict) : result SaturationTransform :=
  match default_instance (dict_lookup_name data) with
  | Ok t =>
      Ok (Transform (curve_of t)
            (map_fold override_prior (function_priors t) (dict_priors data))
            (prefix t))
  | Err e => Err e
  end.

(** Modelled from the spec: [to_dict] of the missing saturation.py (§4.6). *)
Definition to_dict (t : SaturationTransform) : saturation_dict :=
  SaturationDict (lookup_name (curve_of t)) (prior_to_dict <$> function_priors t).

(** Modelled from the spec: [sample_curve] of the missing saturation.py
    (§4.5).  [max_value] is checked first; the dataset's variables are looked
    up by the names of [variable_mapping] only; the output carries the
    sampling dimensions, the grid and the named dimensions of those
    variables, with the dataset's coordinates for them. *)
Definition sample_curve (t : SaturationTransform) (params : Dataset)
    (max_value : Qc) : result DataArray :=
  if decide (0 < max_value)%Qc then
    match mapM (λ v, data_vars params !! v) (own_variables t) with
    | None => Err MissingParameters
    | Some vars =>
        let extra := remove_dups (mjoin (var_dims <$> vars)) in
        let x := linspace max_value 100 in
        Ok {| name := prefix t;
              dims := [Chain; Draw; Grid] ++ (Param <$> extra);
              array_coords :=
                <[Chain := chain params]> (<[Draw := draw params]> (
                <[Grid := NumLabel <$> x]> (
                  kmap Param (filter (λ kv, kv.1 ∈ extra) (coords params)))));
              values := λ i,
                function (curve_of t) (default 0%Qc (x !! i Grid))
                  (λ param,
                     match data_vars params !! variable_name t param with
                     | Some v => var_values v i
                     | None => 0%Qc
                     end) |}
    end
  else Err InvalidConfiguration.


End transforms.

(** *** The data of the test module *)

(** Default priors and formula of the Michaelis-Menten curve,
    [alpha * x / (lam + x)]; the other curves are not needed here. *)
Definition michaelis_menten_priors (c : curve) : gmap string Prior :=
  match c with
  | MichaelisMentenSaturation =>
      {[ "alpha" := MkPrior "Gamma" {[ "mu" := Number 2; "sigma" := Number 1 ]};
         "lam" := MkPrior "HalfNormal" {[ "sigma" := Number 1 ]} ]}
  | _ => ∅
  end.

Definition michaelis_menten (c : curve) (x : Qc) (p : string → Qc) : Qc :=
  (p "alpha" * x / (p "lam" + x))%Qc.

Definition ones (dims : list string) : DataVariable :=
  MkVariable dims (λ _, 1%Qc).

(** [mock_menten_parameters_with_additional_dim] *)
Definition mock_menten_parameters_with_additional_dim : Dataset :=
  MkDataset
    [IntLabel 0]
    (IntLabel ∘ Z.of_nat <$> seq 0 500)
    {[ "saturation_alpha" := ones ["channel"];
       "saturation_lam" := ones ["channel"];
       "another_random_variable" := ones ["channel"; "random_dim"] ]}
    {[ "channel" := [StrLabel "C1"; StrLabel "C2"; StrLabel "C3"];
       "random_dim" := [StrLabel "R1"; StrLabel "R2"] ]}.

Definition menten : SaturationTransform :=
  new michaelis_menten_priors MichaelisMentenSaturation None None.


End Saturation.

(** ** The dataset builder of the test module

    [create_mock_parameters] of [tests/mmm/components/test_saturation.py]
    and the two fixtures built with it.  The Python part is embedded as it
    is written; the constructors of xarray are parameters of the
    embedding. *)

Module Mock.
Import Saturation.

(** [d[k]] on a dict. *)
Definition dict_getitem {A} (d : gmap string A) (k : string) : outcome A :=
  match d !! k with
  | Some a => Returns a
  | None => Raises KeyError
  end.

(** A comprehension [f(x) for x in xs]: the items are computed from left to
    right and the first exception ends it. *)
Fixpoint for_each {A B} (f : A → outcome B) (xs : list A) : outcome (list B) :=
  match xs with
  | [] => Returns []
  | x :: rest =>
      match f x with
      | Raises e => Raises e
      | Returns y =>
          match for_each f rest with
          | Raises e => Raises e
          | Returns ys => Returns (y :: ys)
          end
      end
  end.

(** The dict a comprehension [{k: v for ...}] builds from its items: each
    item is stored in turn, a later one replacing an earlier one of the same
    key. *)
Definition dict_of {A} (items : list (string * A)) : gmap string A :=
  foldl (λ acc item, <[item.1 := item.2]> acc) ∅ items.

(** [dim_sizes = {coord: len(values) for coord, values in coords.items()}] *)
Definition dim_sizes (coords : gmap string (list label)) : gmap string nat :=
  length <$> coords.

(** One item [coord: coords[coord]] of the dict of coordinates. *)
Definition coords_item (coords : gmap string (list label)) (c : string) :
    outcome (string * list label) :=
  match dict_getitem coords c with
  | Returns labels => Returns (c, labels)
  | Raises e => Raises e
  end.

(** The shape and the coordinates a variable on [dims] is built with when
    every dim is a key of [coords]: one axis per dim, as long as the labels
    of the dim, and the entries of [coords] under its dims. *)
Definition expected_shape (coords : gmap string (list label))
    (dims : list string) : list nat :=
  (λ c, length (default [] (coords !! c))) <$> dims.

Definition expected_coords (coords : gmap string (list label))
    (dims : list string) : gmap string (list label) :=
  filter (λ kv, kv.1 ∈ dims) coords.

(** A dimension some variable of the mapping is declared with. *)
Definition used_dimension (variable_dim_mapping : gmap string (list string))
    (c : string) : Prop :=
  ∃ name dims, variable_dim_mapping !! name = Some dims ∧ c ∈ dims.

Section constructors.

(** xarray and numpy are no part of the sources.  The two constructors are
    parameters: [xr_DataArray shape dims coords] stands for
    [xr.DataArray(np.ones(shape), dims=dims, coords=coords)] and
    [xr_Dataset arrays] for [xr.Dataset(arrays)], each returning an object
    or raising, as xarray decides. *)
Context {XrArray XrDataset : Type}.
Variable xr_DataArray :
  list nat → list string → gmap string (list label) → outcome XrArray.
Variable xr_Dataset : gmap string XrArray → outcome XrDataset.

(** [xr.DataArray(np.ones(tuple(dim_sizes[coord] for coord in dims)),
    dims=dims, coords={coord: coords[coord] for coord in dims})] *)
Definition ones_array_for (coords : gmap string (list label))
    (sizes : gmap string nat) (dims : list string) : outcome XrArray :=
  match for_each (dict_getitem sizes) dims with
  | Raises e => Raises e
  | Returns shape =>
      match for_each (coords_item coords) dims with
      | Raises e => Raises e
      | Returns items => xr_DataArray shape dims (dict_of items)
      end
  end.

(** One item [name: xr.DataArray(...)] of the dict of arrays. *)
Definition named_array (coords : gmap string (list label))
    (sizes : gmap string nat) (item : string * list string) :
    outcome (string * XrArray) :=
  match ones_array_for coords sizes item.2 with
  | Returns a => Returns (item.1, a)
  | Raises e => Raises e
  end.

(** [create_mock_parameters(coords, variable_dim_mapping)].  The mapping is
    gone through in the order of [map_to_list]; the order in which the
    variables are built and handed to [xr.Dataset] is not modelled. *)
Definition create_mock_parameters (coords : gmap string (list label))
    (variable_dim_mapping : gmap string (list string)) : outcome XrDataset :=
  let sizes := dim_sizes coords in
  match for_each (named_array coords sizes) (map_to_list variable_dim_mapping) with
  | Raises e => Raises e
  | Returns arrays => xr_Dataset (dict_of arrays)
  end.

(** [np.arange(n)] as labels. *)
Definition arange (n : nat) : list label := IntLabel ∘ Z.of_nat <$> seq 0 n.

(** The fixture [mock_menten_parameters]. *)
Definition mock_menten_parameters : outcome XrDataset :=
  create_mock_parameters
    {[ "chain" := arange 1; "draw" := arange 500 ]}
    {[ "saturation_alpha" := ["chain"; "draw"];
       "saturation_lam" := ["chain"; "draw"];
       "another_random_variable" := ["chain"; "draw"] ]}.

(** The fixture [mock_menten_parameters_with_additional_dim]. *)
Definition mock_menten_parameters_with_additional_dim : outcome XrDataset :=
  create_mock_parameters
    {[ "chain" := arange 1; "draw" := arange 500;
       "channel" := [StrLabel "C1"; StrLabel "C2"; StrLabel "C3"];
       "random_dim" := [StrLabel "R1"; StrLabel "R2"] ]}
    {[ "saturation_alpha" := ["chain"; "draw"; "channel"];
       "saturation_lam" := ["chain"; "draw"; "channel"];
       "another_random_variable" := ["chain"; "draw"; "channel"; "random_dim"] ]}.

End constructors.

End Mock.

(** * Properties of the validators *)

Section validators.
Import Validating.
Implicit Types (h : host) (d : DataFrame) (names : list string).

(** *** Facts about the tests the validators make *)

Lemma in_columns_true name d : in_columns name d = true ↔ name ∈ columns d.
Proof. unfold in_columns. by rewrite bool_decide_eq_true. Qed.

Lemma in_columns_lookup name d : name ∈ columns d ↔ is_Some (d !! name).
Proof. unfold columns. apply elem_of_dom. Qed.

Lemma issubset_columns_true names d :
  issubset_columns names d = true ↔ ∀ n, n ∈ names → n ∈ columns d.
Proof.
  unfold issubset_columns, py_set. rewrite bool_decide_eq_true. split.
  - intros Hsub n Hn. apply Hsub. by apply elem_of_list_to_set.
  - intros Hall n Hn. apply Hall. by apply elem_of_list_to_set in Hn.
Qed.

Lemma size_py_set_le names : (size (py_set names) ≤ length names)%nat.
Proof.
  unfold py_set. induction names as [|n names IH]; [done|].
  change (list_to_set (n :: names) : gset string)
    with ({[n]} ∪ list_to_set names : gset string).
  rewrite size_union_alt, size_singleton. cbn [length].
  assert (size (list_to_set names ∖ {[n]} : gset string)
          ≤ size (list_to_set names : gset string))%nat.
  { apply subseteq_size, subseteq_difference_l. done. }
  lia.
Qed.

Lemma size_py_set_eq names : size (py_set names) = length names ↔ NoDup names.
Proof.
  split; [|apply size_list_to_set].
  induction names as [|n names IH]; intros Hsize; [constructor|].
  destruct (decide (n ∈ names)) as [Hin|Hout].
  - exfalso. pose proof (size_py_set_le names) as Hle.
    assert (py_set (n :: names) = py_set names) as Heq.
    { unfold py_set. cbn [list_to_set foldr].
      apply (elem_of_list_to_set (C:=gset string)) in Hin.
      by apply subseteq_union_1_L, singleton_subseteq_l. }
    rewrite Heq in Hsize. cbn [length] in Hsize. lia.
  - constructor; [done|]. apply IH.
    unfold py_set in *.
    change (list_to_set (n :: names) : gset string)
      with ({[n]} ∪ list_to_set names : gset string) in Hsize.
    rewrite size_union in Hsize.
    + rewrite size_singleton in Hsize. cbn [length] in Hsize. lia.
    + apply disjoint_singleton_l. by rewrite elem_of_list_to_set.
Qed.

Lemma distinct_test_true names :
  (size (py_set names) =? length names)%nat = true ↔ NoDup names.
Proof. rewrite Nat.eqb_eq. apply size_py_set_eq. Qed.

Lemma empty_test_true names : (length names =? 0)%nat = true ↔ names = [].
Proof. rewrite Nat.eqb_eq. apply length_zero_iff_nil. Qed.

Lemma is_unique_true (col : Series Z) : is_unique col = true ↔ NoDup col.
Proof. unfold is_unique. by rewrite bool_decide_eq_true. Qed.

Lemma select_is_Some names d :
  (∀ n, n ∈ names → n ∈ columns d) → is_Some (select d names).
Proof.
  induction names as [|n names IH]; intros Hall; simpl; [by eexists|].
  destruct (proj1 (in_columns_lookup n d)) as [col ->].
  { apply Hall. left. }
  destruct IH as [sel ->]; [|by eexists].
  intros m Hm. apply Hall. by right.
Qed.

(** *** Every building block but the two assignments is read-only *)

Section frame.
Context {A B : Type}.

Lemma read_only_ret (a : A) : read_only (ret a).
Proof. by intros st. Qed.

Lemma read_only_raise (e : exn) : read_only (raise (A:=A) e).
Proof. by intros st. Qed.

Lemma read_only_attr (field : host → A) : read_only (attr field).
Proof. by intros st. Qed.

Lemma read_only_call (o : outcome A) : read_only (call o).
Proof. by intros st. Qed.

Lemma read_only_bind (m : method A) (k : A → method B) :
  read_only m → (∀ a, read_only (k a)) → read_only (m ≫= k).
Proof.
  intros Hm Hk st. unfold mbind, method_bind, bind.
  specialize (Hm st). destruct (m st) as [[a|e] st']; simpl in *; subst.
  - apply Hk.
  - done.
Qed.
End frame.

Lemma read_only_arg : read_only arg.
Proof. by intros st. Qed.

Lemma read_only_raise_if c e : read_only (raise_if c e).
Proof. by destruct c; intros st. Qed.

Lemma set_data_writes (d d' : DataFrame) (h : host) :
d ≠ d' → snd (set_data d' (Store h d)) ≠ Store h d.
Proof. intros Hne. simpl. congruence. Qed.

Create HintDb frame.
#[local] Hint Resolve read_only_ret read_only_raise read_only_attr read_only_call
read_only_arg read_only_raise_if : frame.

Ltac read_only_step :=
first [ apply read_only_bind; [|intros ?] | progress eauto with frame ].

Lemma read_only_validate_target : read_only validate_target.
Proof. unfold validate_target. repeat read_only_step. Qed.

Lemma read_only_validate_date_col : read_only validate_date_col.
Proof. unfold validate_date_col. repeat read_only_step. Qed.

Lemma read_only_validate_channel_columns : read_only validate_channel_columns.
Proof.
unfold validate_channel_columns.
apply read_only_bind; [eauto with frame|intros cols].
apply read_only_bind; [eauto with frame|intros d].
destruct (as_sequence cols) as [[kind names]|]; repeat read_only_step.
Qed.

Lemma read_only_validate_control_columns : read_only validate_control_columns.
Proof.
unfold validate_control_columns.
apply read_only_bind; [eauto with frame|intros cols].
apply read_only_bind; [eauto with frame|intros d].
destruct cols; simpl; repeat read_only_step.
Qed.



(** *** Outcomes of the column-sequence checks *)

Lemma bind_attr {A B} (field : host → A) (k : A → method B) st :
  (attr field ≫= k) st = k (field (self st)) st.
Proof. done. Qed.

Lemma bind_arg {B} (k : DataFrame → method B) st :
  (arg ≫= k) st = k (data st) st.
Proof. done. Qed.

Lemma bind_call_returns {A B} (a : A) (k : A → method B) st :
  (call (Returns a) ≫= k) st = k a st.
Proof. done. Qed.

Lemma bind_call_raises {A B} (e : exn) (k : A → method B) st :
  (call (Raises e) ≫= k) st = (Raises e, st).
Proof. done. Qed.

Lemma seq_raise_if {A} (c : bool) (e : exn) (k : method A) st :
  (raise_if c e;; k) st = if c then (Raises e, st) else k st.
Proof. by destruct c. Qed.

Lemma raise_if_false (e : exn) st : raise_if false e st = (Returns tt, st).
Proof. done. Qed.

Lemma raise_if_true (e : exn) st : raise_if true e st = (Raises e, st).
Proof. done. Qed.

Lemma empty_test_false names : names ≠ [] → (length names =? 0)%nat = false.
Proof. intros Hne. apply not_true_iff_false. by rewrite empty_test_true. Qed.

Lemma structural_checks_empty d st :
  structural_checks [] d st = (Raises EmptyCollection, st).
Proof. done. Qed.

Lemma structural_checks_missing names d st :
  names ≠ [] → ¬ (∀ n, n ∈ names → n ∈ columns d) →
  structural_checks names d st = (Raises MissingColumn, st).
Proof.
  intros Hne Hmiss. unfold structural_checks.
  assert (issubset_columns names d = false) as Hfalse.
  { apply not_true_iff_false. by rewrite issubset_columns_true. }
  by rewrite seq_raise_if, (empty_test_false _ Hne), seq_raise_if, Hfalse.
Qed.

Lemma structural_checks_duplicates names d st :
  names ≠ [] → (∀ n, n ∈ names → n ∈ columns d) → ¬ NoDup names →
  structural_checks names d st = (Raises DuplicateValues, st).
Proof.
  intros Hne Hall Hdup. unfold structural_checks.
  apply issubset_columns_true in Hall.
  assert ((size (py_set names) =? length names)%nat = false) as Hfalse.
  { apply not_true_iff_false. by rewrite distinct_test_true. }
  by rewrite seq_raise_if, (empty_test_false _ Hne), seq_raise_if, Hall, Hfalse.
Qed.

Lemma structural_checks_pass names d st :
  names ≠ [] → (∀ n, n ∈ names → n ∈ columns d) → NoDup names →
  structural_checks names d st = (Returns tt, st).
Proof.
  intros Hne Hall Hnodup. unfold structural_checks.
  apply issubset_columns_true in Hall.
  apply distinct_test_true in Hnodup.
  by rewrite seq_raise_if, (empty_test_false _ Hne), seq_raise_if, Hall, Hnodup.
Qed.

(** Exactly one of the four cases applies to a list of names. *)
Lemma structural_cases names d :
  names = [] ∨
  (names ≠ [] ∧ ¬ (∀ n, n ∈ names → n ∈ columns d)) ∨
  (names ≠ [] ∧ (∀ n, n ∈ names → n ∈ columns d) ∧ ¬ NoDup names) ∨
  (names ≠ [] ∧ (∀ n, n ∈ names → n ∈ columns d) ∧ NoDup names).
Proof.
  destruct (decide (names = [])) as [|Hne]; [by left|right].
  destruct (issubset_columns names d) eqn:Hsub.
  - rewrite issubset_columns_true in Hsub. right.
    destruct (decide (NoDup names)); [right|left]; done.
  - left. split; [done|]. apply not_true_iff_false in Hsub.
    by rewrite issubset_columns_true in Hsub.
Qed.

(** *** The target and date validators *)

(** C8: [validate_target] raises the missing-column error exactly when the
    host's [target_column] is not among the columns of the input; when the
    column is there it returns, whatever the frame holds. *)
Theorem validate_target_spec h d :
  (result validate_target h d = Raises MissingColumn ↔ target_column h ∉ columns d) ∧
  (target_column h ∈ columns d → result validate_target h d = Returns tt).
Proof.
  unfold result, run, validate_target. rewrite bind_attr, bind_arg.
  cbn [self data]. rewrite <- in_columns_true.
  destruct (in_columns (target_column h) d); cbn; by split.
Qed.

(** C6: [validate_date_col] raises the missing-column error when the host's
    [date_column] is not a column of the input; when it is, the duplicate
    error is raised exactly when the column's values are not all distinct,
    and otherwise the call returns. *)
Theorem validate_date_col_spec h d :
  (date_column h ∉ columns d →
     result validate_date_col h d = Raises MissingColumn) ∧
  (∀ col, d !! date_column h = Some col →
     (result validate_date_col h d = Raises DuplicateValues ↔ ¬ NoDup col) ∧
     (NoDup col → result validate_date_col h d = Returns tt)).
Proof.
  unfold result, run, validate_date_col. rewrite bind_attr, bind_arg.
  cbn [self data]. rewrite seq_raise_if. split.
  - intros Hout. rewrite <- in_columns_true in Hout.
    apply not_true_is_false in Hout. by rewrite Hout.
  - intros col Hcol.
    assert (in_columns (date_column h) d = true) as ->.
    { apply in_columns_true, in_columns_lookup. by eexists. }
    cbn [negb]. unfold getitem. rewrite Hcol, bind_call_returns.
    rewrite <- is_unique_true.
    destruct (is_unique col); cbn; by split.
Qed.

(** *** The control validator *)

Lemma validate_control_columns_sequence h d kind names :
  as_sequence (control_columns h) = Some (kind, names) →
  run validate_control_columns h d = structural_checks names d (Store h d).
Proof.
  intros Hseq. unfold run, validate_control_columns.
  rewrite bind_attr, bind_arg. cbn [self data].
  by destruct (control_columns h); simplify_eq/=.
Qed.

(** C7: [validate_control_columns] returns when the attribute is [None];
    otherwise it raises the invalid-type error for a value that is neither a
    list nor a tuple, then the empty, missing-column and duplicate errors in
    that order, and it returns for every sequence of distinct names present
    in the input, whatever values the columns hold: no test reads them. *)
Theorem validate_control_columns_spec h d :
  (control_columns h = PyNone →
     result validate_control_columns h d = Returns tt) ∧
  (control_columns h ≠ PyNone → as_sequence (control_columns h) = None →
     result validate_control_columns h d = Raises InvalidType) ∧
  (∀ kind names, as_sequence (control_columns h) = Some (kind, names) →
     (names = [] →
        result validate_control_columns h d = Raises EmptyCollection) ∧
     (names ≠ [] → ¬ (∀ n, n ∈ names → n ∈ columns d) →
        result validate_control_columns h d = Raises MissingColumn) ∧
     (names ≠ [] → (∀ n, n ∈ names → n ∈ columns d) → ¬ NoDup names →
        result validate_control_columns h d = Raises DuplicateValues) ∧
     (names ≠ [] → (∀ n, n ∈ names → n ∈ columns d) → NoDup names →
        result validate_control_columns h d = Returns tt)).
Proof.
  split; [|split].
  - intros Hnone. unfold result, run, validate_control_columns.
    rewrite bind_attr, bind_arg. cbn [self data]. by rewrite Hnone.
  - intros Hnone Hseq. unfold result, run, validate_control_columns.
    rewrite bind_attr, bind_arg. cbn [self data].
    by destruct (control_columns h).
  - intros kind names Hseq. unfold result.
    rewrite (validate_control_columns_sequence _ _ _ _ Hseq).
    repeat split.
    + intros ->. by rewrite structural_checks_empty.
    + intros. by rewrite structural_checks_missing.
    + intros. by rewrite structural_checks_duplicates.
    + intros. by rewrite structural_checks_pass.
Qed.

(** A control column with negative entries passes. *)
Example validate_control_columns_negative_entries :
  result validate_control_columns
    (Host "y" "date" (PyList ["x1"]) (PyList ["temperature"]))
    {[ "temperature" := [-5; 3]; "x1" := [1; 2] ]} = Returns tt.
Proof. vm_compute. reflexivity. Qed.

(** *** The channel validator *)

(** The four structural tests of [validate_channel_columns] come in the
    order invalid type, empty, missing column, duplicates, the first failure
    being the one raised; an attribute that passes them all makes the call
    raise in the statement that was meant to test the values. *)
Lemma validate_channel_columns_cases h d :
  (as_sequence (channel_columns h) = None →
     result validate_channel_columns h d = Raises InvalidType) ∧
  (∀ kind names, as_sequence (channel_columns h) = Some (kind, names) →
     (names = [] →
        result validate_channel_columns h d = Raises EmptyCollection) ∧
     (names ≠ [] → ¬ (∀ n, n ∈ names → n ∈ columns d) →
        result validate_channel_columns h d = Raises MissingColumn) ∧
     (names ≠ [] → (∀ n, n ∈ names → n ∈ columns d) → ¬ NoDup names →
        result validate_channel_columns h d = Raises DuplicateValues) ∧
     (names ≠ [] → (∀ n, n ∈ names → n ∈ columns d) → NoDup names →
        result validate_channel_columns h d = Raises (channel_values_failure kind))).
Proof.
  unfold result, run, validate_channel_columns.
  rewrite bind_attr, bind_arg. cbn [self data]. split.
  - by intros ->.
  - intros kind names ->. rewrite seq_raise_if. repeat split.
    + by intros ->.
    + intros Hne Hmiss. rewrite (empty_test_false _ Hne), seq_raise_if.
      assert (issubset_columns names d = false) as ->; [|done].
      apply not_true_iff_false. by rewrite issubset_columns_true.
    + intros Hne Hall Hdup. rewrite (empty_test_false _ Hne), seq_raise_if.
      rewrite (proj2 (issubset_columns_true _ _) Hall). cbn [negb].
      rewrite seq_raise_if.
      assert ((size (py_set names) =? length names)%nat = false) as ->; [|done].
      apply not_true_iff_false. by rewrite distinct_test_true.
    + intros Hne Hall Hnodup. rewrite (empty_test_false _ Hne), seq_raise_if.
      rewrite (proj2 (issubset_columns_true _ _) Hall). cbn [negb].
      rewrite seq_raise_if, (proj2 (distinct_test_true _) Hnodup). cbn [negb].
      destruct kind; cbn [getitem_sequence channel_values_failure].
      * destruct (select_is_Some _ _ Hall) as [sel ->].
        by rewrite bind_call_returns.
      * by rewrite bind_call_raises.
Qed.

(** Whatever the host and the input, the channel validator raises. *)
Lemma validate_channel_columns_always_raises h d :
  raised (result validate_channel_columns h d) = true.
Proof.
  destruct (validate_channel_columns_cases h d) as [Hnone Hsome].
  destruct (as_sequence (channel_columns h)) as [[kind names]|] eqn:Hseq.
  - destruct (Hsome kind names eq_refl) as (H1 & H2 & H3 & H4).
    destruct (structural_cases names d) as [?|[[??]|[(?&?&?)|(?&?&?)]]].
    + by rewrite H1.
    + by rewrite H2.
    + by rewrite H3.
    + by rewrite H4.
  - by rewrite Hnone.
Qed.

(** The negative-value error is raised on no input. *)
Lemma validate_channel_columns_never_negative_value h d :
  result validate_channel_columns h d ≠ Raises NegativeValue.
Proof.
  destruct (validate_channel_columns_cases h d) as [Hnone Hsome].
  destruct (as_sequence (channel_columns h)) as [[kind names]|] eqn:Hseq.
  - destruct (Hsome kind names eq_refl) as (H1 & H2 & H3 & H4).
    destruct (structural_cases names d) as [?|[[??]|[(?&?&?)|(?&?&?)]]].
    + by rewrite H1.
    + by rewrite H2.
    + by rewrite H3.
    + rewrite H4 by done. by destruct kind.
  - by rewrite Hnone.
Qed.

(** X1: the structural part of the channel validator: invalid type, empty,
    missing column and duplicates are tested in this order and the first
    failure is the error raised; a name missing from the input wins over a
    duplicated name. *)
Theorem validate_channel_columns_structural_order h d :
  (as_sequence (channel_columns h) = None →
     result validate_channel_columns h d = Raises InvalidType) ∧
  (∀ kind names, as_sequence (channel_columns h) = Some (kind, names) →
     (names = [] →
        result validate_channel_columns h d = Raises EmptyCollection) ∧
     (names ≠ [] → ¬ (∀ n, n ∈ names → n ∈ columns d) →
        result validate_channel_columns h d = Raises MissingColumn) ∧
     (names ≠ [] → (∀ n, n ∈ names → n ∈ columns d) → ¬ NoDup names →
        result validate_channel_columns h d = Raises DuplicateValues)).
Proof.
  destruct (validate_channel_columns_cases h d) as [Hnone Hsome].
  split; [done|]. intros kind names Hseq.
  destruct (Hsome kind names Hseq) as (H1 & H2 & H3 & _). done.
Qed.

(** X2: the value test of the channel validator never gets to decide: no call
    returns, and no call raises the negative-value error. *)
Theorem validate_channel_columns_value_test_unreachable h d :
  raised (result validate_channel_columns h d) = true ∧
  result validate_channel_columns h d ≠ Raises NegativeValue.
Proof.
  split.
  - apply validate_channel_columns_always_raises.
  - apply validate_channel_columns_never_negative_value.
Qed.

(** C1, at a valid input: two distinct channel columns, both in the frame,
    all entries non-negative.  The call raises pandas' [ValueError] on the
    truth value of a Series instead of returning. *)
Theorem validate_channel_columns_valid_input_raises :
  result validate_channel_columns
    (Host "y" "date" (PyList ["x1"; "x2"]) PyNone)
    {[ "x1" := [1; 0]; "x2" := [3; 4]; "y" := [10; 12] ]}
  = Raises AmbiguousTruthValue.
Proof. vm_compute. reflexivity. Qed.

(** C2, at an input whose only defect is a negative entry: the error raised
    is pandas' [ValueError] on the truth value of a Series, the same as for
    the frame without the negative entry, and not the negative-value error. *)
Theorem validate_channel_columns_negative_input_error :
  result validate_channel_columns
    (Host "y" "date" (PyList ["x1"]) PyNone) {[ "x1" := [-1; 2] ]}
  = Raises AmbiguousTruthValue ∧
  result validate_channel_columns
    (Host "y" "date" (PyList ["x1"]) PyNone) {[ "x1" := [1; 2] ]}
  = Raises AmbiguousTruthValue.
Proof. split; vm_compute; reflexivity. Qed.

(** The case C2 singles out: a duplicated name together with a missing one
    yields the missing-column error. *)
Example validate_channel_columns_missing_before_duplicates :
  result validate_channel_columns
    (Host "y" "date" (PyList ["x1"; "x1"; "x3"]) PyNone) {[ "x1" := [1; 2] ]}
  = Raises MissingColumn.
Proof. vm_compute. reflexivity. Qed.

(** *** No validator writes *)

(** C9: calling any of the four validators on any host and any input leaves
    the store as it was, on the returning and on the raising paths alike:
    the host's attributes and the frame after the call are those before. *)
Theorem validators_leave_store_unchanged (v : validator) h d :
  snd (run (validator_method v) h d) = Store h d.
Proof.
  unfold run. destruct v; simpl.
  - apply read_only_validate_target.
  - apply read_only_validate_date_col.
  - apply read_only_validate_channel_columns.
  - apply read_only_validate_control_columns.
Qed.

(** *** The outcome of each validator, in closed form *)

Lemma validate_target_result h d :
  result validate_target h d
  = if in_columns (target_column h) d then Returns tt else Raises MissingColumn.
Proof.
  unfold result, run, validate_target. rewrite bind_attr, bind_arg.
  cbn [self data]. by destruct (in_columns _ d).
Qed.

Lemma validate_date_col_result h d :
  result validate_date_col h d
  = match d !! date_column h with
    | None => Raises MissingColumn
    | Some col => if is_unique col then Returns tt else Raises DuplicateValues
    end.
Proof.
  unfold result, run, validate_date_col. rewrite bind_attr, bind_arg.
  cbn [self data]. rewrite seq_raise_if. unfold getitem.
  destruct (d !! date_column h) as [col|] eqn:Hcol.
  - assert (in_columns (date_column h) d = true) as ->.
    { apply in_columns_true, in_columns_lookup. by eexists. }
    cbn [negb]. rewrite bind_call_returns. by destruct (is_unique col).
  - assert (in_columns (date_column h) d = false) as ->; [|done].
    apply not_true_iff_false. rewrite in_columns_true, in_columns_lookup, Hcol.
    by intros [].
Qed.

Lemma structural_checks_result names d st :
  fst (structural_checks names d st)
  = if (length names =? 0)%nat then Raises EmptyCollection
    else if issubset_columns names d then
      if (size (py_set names) =? length names)%nat then Returns tt
      else Raises DuplicateValues
    else Raises MissingColumn.
Proof.
  unfold structural_checks. rewrite seq_raise_if.
  destruct (length names =? 0)%nat; [done|]. rewrite seq_raise_if.
  destruct (issubset_columns names d); [|done]. cbn [negb].
  by destruct (size (py_set names) =? length names)%nat.
Qed.

Lemma validate_channel_columns_result h d kind names :
  as_sequence (channel_columns h) = Some (kind, names) →
  result validate_channel_columns h d
  = if (length names =? 0)%nat then Raises EmptyCollection
    else if issubset_columns names d then
      if (size (py_set names) =? length names)%nat
      then Raises (channel_values_failure kind)
      else Raises DuplicateValues
    else Raises MissingColumn.
Proof.
  intros Hseq.
  destruct (validate_channel_columns_cases h d) as [_ Hsome].
  destruct (Hsome kind names Hseq) as (H1 & H2 & H3 & H4).
  destruct (structural_cases names d) as [->|[[Hne Hmiss]|[(Hne&Hall&Hdup)|(Hne&Hall&Hnodup)]]].
  - by rewrite H1.
  - rewrite H2, (empty_test_false _ Hne) by done.
    assert (issubset_columns names d = false) as ->; [|done].
    apply not_true_iff_false. by rewrite issubset_columns_true.
  - rewrite H3, (empty_test_false _ Hne) by done.
    rewrite (proj2 (issubset_columns_true _ _) Hall).
    assert ((size (py_set names) =? length names)%nat = false) as ->; [|done].
    apply not_true_iff_false. by rewrite distinct_test_true.
  - rewrite H4, (empty_test_false _ Hne) by done.
    by rewrite (proj2 (issubset_columns_true _ _) Hall),
      (proj2 (distinct_test_true _) Hnodup).
Qed.

Lemma validate_control_columns_none h d :
  control_columns h = PyNone → result validate_control_columns h d = Returns tt.
Proof.
  intros Hnone. unfold result, run, validate_control_columns.
  rewrite bind_attr, bind_arg. cbn [self data]. by rewrite Hnone.
Qed.

Lemma validate_control_columns_invalid h d :
  control_columns h ≠ PyNone → as_sequence (control_columns h) = None →
  result validate_control_columns h d = Raises InvalidType.
Proof.
  intros Hnone Hseq. unfold result, run, validate_control_columns.
  rewrite bind_attr, bind_arg. cbn [self data]. by destruct (control_columns h).
Qed.

Lemma validate_control_columns_result h d kind names :
  as_sequence (control_columns h) = Some (kind, names) →
  result validate_control_columns h d
  = fst (structural_checks names d (Store h d)).
Proof.
  intros Hseq. unfold result.
  by rewrite (validate_control_columns_sequence _ _ _ _ Hseq).
Qed.

(** *** What the tests depend on *)

Lemma issubset_columns_labels names d d' :
  columns d = columns d' → issubset_columns names d = issubset_columns names d'.
Proof. intros Heq. unfold issubset_columns. by rewrite Heq. Qed.

Lemma in_columns_labels name d d' :
  columns d = columns d' → in_columns name d = in_columns name d'.
Proof. intros Heq. unfold in_columns. by rewrite Heq. Qed.

Lemma columns_subseteq d d' : d ⊆ d' → columns d ⊆ columns d'.
Proof. apply subseteq_dom. Qed.

Lemma py_set_permutation names names' :
  names ≡ₚ names' → py_set names = py_set names'.
Proof. intros Hperm. unfold py_set. by rewrite Hperm. Qed.

Lemma structural_checks_permutation names names' d st st' :
  names ≡ₚ names' →
  fst (structural_checks names d st) = fst (structural_checks names' d st').
Proof.
  intros Hperm. rewrite !structural_checks_result.
  unfold issubset_columns.
  by rewrite (py_set_permutation _ _ Hperm), (Permutation_length Hperm).
Qed.

(** X3: a frame that passes the target, date or control validator keeps
    passing when columns are added to it. *)
Theorem validators_tolerate_extra_columns h d d' :
  d ⊆ d' →
  (result validate_target h d = Returns tt →
     result validate_target h d' = Returns tt) ∧
  (result validate_date_col h d = Returns tt →
     result validate_date_col h d' = Returns tt) ∧
  (result validate_control_columns h d = Returns tt →
     result validate_control_columns h d' = Returns tt).
Proof.
  intros Hsub. pose proof (columns_subseteq _ _ Hsub) as Hcols.
  split; [|split].
  - rewrite !validate_target_result.
    destruct (in_columns (target_column h) d) eqn:Hin; [|done]. intros _.
    apply in_columns_true in Hin.
    by rewrite (proj2 (in_columns_true _ _) (Hcols _ Hin)).
  - rewrite !validate_date_col_result.
    destruct (d !! date_column h) as [col|] eqn:Hcol; [|done].
    by rewrite (lookup_weaken _ _ _ _ Hcol Hsub).
  - destruct (control_columns h) eqn:Hc;
      try by rewrite !validate_control_columns_none.
    all: try by (rewrite validate_control_columns_invalid; [done|by rewrite Hc..]).
    all: erewrite !validate_control_columns_result by (by rewrite Hc);
      rewrite !structural_checks_result;
      destruct (length xs =? 0)%nat; [done|];
      destruct (issubset_columns xs d) eqn:Hin; [|done];
      rewrite issubset_columns_true in Hin;
      rewrite (proj2 (issubset_columns_true xs d')); [done|];
      intros n Hn; by apply Hcols, Hin.
Qed.

(** X4: the order in which the names are listed does not matter to the
    sequence validators, and the control validator does not tell a list
    from a tuple. *)
Theorem sequence_validators_ignore_order names names' d :
  names ≡ₚ names' →
  (∀ h h' kind kind',
     as_sequence (control_columns h) = Some (kind, names) →
     as_sequence (control_columns h') = Some (kind', names') →
     result validate_control_columns h d = result validate_control_columns h' d) ∧
  (∀ h h' kind,
     as_sequence (channel_columns h) = Some (kind, names) →
     as_sequence (channel_columns h') = Some (kind, names') →
     result validate_channel_columns h d = result validate_channel_columns h' d).
Proof.
  intros Hperm. split.
  - intros h h' kind kind' Hseq Hseq'.
    rewrite (validate_control_columns_result _ _ _ _ Hseq),
      (validate_control_columns_result _ _ _ _ Hseq').
    by apply structural_checks_permutation.
  - intros h h' kind Hseq Hseq'.
    rewrite (validate_channel_columns_result _ _ _ _ Hseq),
      (validate_channel_columns_result _ _ _ _ Hseq').
    unfold issubset_columns.
    by rewrite (py_set_permutation _ _ Hperm), (Permutation_length Hperm).
Qed.

(** X5: the errors each validator can raise.  The target validator raises
    nothing but the missing-column error, the date validator that or the
    duplicate error (its column look-up is guarded and never fails), the
    control validator one of the four structural errors; a [KeyError]
    leaves the channel validator exactly for a tuple that passes the
    structural tests. *)
Theorem validators_raise_only h d :
  (∀ e, result validate_target h d = Raises e → e = MissingColumn) ∧
  (∀ e, result validate_date_col h d = Raises e →
        e = MissingColumn ∨ e = DuplicateValues) ∧
  (∀ e, result validate_control_columns h d = Raises e →
        e ∈ [InvalidType; EmptyCollection; MissingColumn; DuplicateValues]) ∧
  (result validate_channel_columns h d = Raises KeyError ↔
     ∃ names, channel_columns h = PyTuple names ∧ names ≠ [] ∧
              (∀ n, n ∈ names → n ∈ columns d) ∧ NoDup names).
Proof.
  split; [|split; [|split]].
  - intros e. rewrite validate_target_result.
    destruct (in_columns _ d); congruence.
  - intros e. rewrite validate_date_col_result.
    destruct (d !! date_column h) as [col|]; [destruct (is_unique col)|];
      intros; simplify_eq; auto.
  - intros e.
    destruct (control_columns h) eqn:Hc;
      try (rewrite validate_control_columns_none by done; congruence).
    all: try (rewrite validate_control_columns_invalid by (by rewrite Hc);
              intros [= <-]; set_solver).
    all: erewrite validate_control_columns_result by (by rewrite Hc);
      rewrite structural_checks_result;
      repeat case_match; intros; simplify_eq; set_solver.
  - destruct (validate_channel_columns_cases h d) as [Hnone Hsome]. split.
    + destruct (as_sequence (channel_columns h)) as [[kind names]|] eqn:Hseq;
        [|by rewrite Hnone].
      destruct (Hsome kind names eq_refl) as (H1 & H2 & H3 & H4).
      destruct (structural_cases names d)
        as [?|[[??]|[(?&?&?)|(Hne&Hall&Hnodup)]]].
      * by rewrite H1.
      * by rewrite H2.
      * by rewrite H3.
      * rewrite H4 by done. destruct kind; [done|]. intros _.
        exists names. by destruct (channel_columns h); simplify_eq/=.
    + intros (names & Htuple & Hne & Hall & Hnodup).
      assert (as_sequence (channel_columns h) = Some (TupleKind, names)) as Hseq
        by by rewrite Htuple.
      destruct (Hsome _ _ Hseq) as (_ & _ & _ & H4). by rewrite H4.
Qed.

(** X6: the target and the control validator see of the frame only its
    column labels: two frames with the same labels get the same outcome,
    whatever the columns hold. *)
Theorem validators_depend_on_column_labels h d d' :
  columns d = columns d' →
  result validate_target h d = result validate_target h d' ∧
  result validate_control_columns h d = result validate_control_columns h d'.
Proof.
  intros Hcols. split.
  - by rewrite !validate_target_result, (in_columns_labels _ _ _ Hcols).
  - destruct (control_columns h) eqn:Hc;
      try by rewrite !validate_control_columns_none.
    all: try by (rewrite !validate_control_columns_invalid; [done|by rewrite Hc..]).
    all: erewrite !validate_control_columns_result by (by rewrite Hc);
      by rewrite !structural_checks_result, (issubset_columns_labels _ _ _ Hcols).
Qed.

(** X7: the date validator reads one column: two frames that agree on the
    host's date column, present or absent, get the same outcome. *)
Theorem validate_date_col_reads_one_column h d d' :
  d !! date_column h = d' !! date_column h →
  result validate_date_col h d = result validate_date_col h d'.
Proof. intros Heq. by rewrite !validate_date_col_result, Heq. Qed.

(** X8: given the same value, not [None], the channel and the control
    validator agree on the structural errors: when the control validator
    raises, the channel validator raises the same error, and when the
    control validator returns, the channel validator has got as far as its
    test of the values. *)
Theorem channel_and_control_agree_on_structure h d :
  channel_columns h = control_columns h → control_columns h ≠ PyNone →
  (∀ e, result validate_control_columns h d = Raises e →
        result validate_channel_columns h d = Raises e) ∧
  (result validate_control_columns h d = Returns tt →
     ∃ kind names, as_sequence (channel_columns h) = Some (kind, names) ∧
       result validate_channel_columns h d = Raises (channel_values_failure kind)).
Proof.
  intros Hsame Hnone.
  destruct (validate_channel_columns_cases h d) as [Hchan _].
  destruct (as_sequence (control_columns h)) as [[kind names]|] eqn:Hseq.
  - assert (as_sequence (channel_columns h) = Some (kind, names)) as Hseq'
      by by rewrite Hsame.
    rewrite (validate_control_columns_result _ _ _ _ Hseq),
      (validate_channel_columns_result _ _ _ _ Hseq'), structural_checks_result.
    split.
    + intros e. by repeat case_match.
    + intros Hret. exists kind, names. split; [done|]. by repeat case_match.
  - rewrite validate_control_columns_invalid by done.
    split; [|done]. intros e [= <-]. apply Hchan. by rewrite Hsame.
Qed.

(** *** The extra properties at [toy_host] and [toy_frame] *)

Lemma validators_tolerate_extra_columns_witness :
  (result validate_target toy_host toy_frame = Returns tt →
     result validate_target toy_host (<["clicks" := [7; 7; 7]]> toy_frame) = Returns tt) ∧
  (result validate_date_col toy_host toy_frame = Returns tt →
     result validate_date_col toy_host (<["clicks" := [7; 7; 7]]> toy_frame) = Returns tt) ∧
  (result validate_control_columns toy_host toy_frame = Returns tt →
     result validate_control_columns toy_host (<["clicks" := [7; 7; 7]]> toy_frame)
     = Returns tt).
Proof.
  apply (validators_tolerate_extra_columns toy_host toy_frame
           (<["clicks" := [7; 7; 7]]> toy_frame)).
  apply insert_subseteq. reflexivity.
Defined.

Lemma sequence_validators_ignore_order_witness :
  (∀ h h' kind kind',
     as_sequence (control_columns h) = Some (kind, ["temperature"; "holiday"]) →
     as_sequence (control_columns h') = Some (kind', ["holiday"; "temperature"]) →
     result validate_control_columns h toy_frame
     = result validate_control_columns h' toy_frame) ∧
  (∀ h h' kind,
     as_sequence (channel_columns h) = Some (kind, ["temperature"; "holiday"]) →
     as_sequence (channel_columns h') = Some (kind, ["holiday"; "temperature"]) →
     result validate_channel_columns h toy_frame
     = result validate_channel_columns h' toy_frame).
Proof.
  apply (sequence_validators_ignore_order
           ["temperature"; "holiday"] ["holiday"; "temperature"] toy_frame).
  apply perm_swap.
Defined.

Lemma validators_depend_on_column_labels_witness :
  result validate_target toy_host toy_frame
  = result validate_target toy_host (map Z.opp <$> toy_frame) ∧
  result validate_control_columns toy_host toy_frame
  = result validate_control_columns toy_host (map Z.opp <$> toy_frame).
Proof.
  apply (validators_depend_on_column_labels toy_host toy_frame
           (map Z.opp <$> toy_frame)).
  unfold columns. symmetry. apply dom_fmap_L.
Defined.

Lemma validate_date_col_reads_one_column_witness :
  result validate_date_col toy_host toy_frame
  = result validate_date_col toy_host (<["x1" := [-1]]> toy_frame).
Proof.
  apply (validate_date_col_reads_one_column toy_host toy_frame
           (<["x1" := [-1]]> toy_frame)).
  reflexivity.
Defined.

Lemma channel_and_control_agree_on_structure_witness :
  let h := Host "y" "date" (PyList ["x1"; "x1"]) (PyList ["x1"; "x1"]) in
  (∀ e, result validate_control_columns h toy_frame = Raises e →
        result validate_channel_columns h toy_frame = Raises e) ∧
  (result validate_control_columns h toy_frame = Returns tt →
     ∃ kind names, as_sequence (channel_columns h) = Some (kind, names) ∧
       result validate_channel_columns h toy_frame
       = Raises (channel_values_failure kind)).
Proof.
  apply (channel_and_control_agree_on_structure
           (Host "y" "date" (PyList ["x1"; "x1"]) (PyList ["x1"; "x1"])) toy_frame).
  - reflexivity.
  - discriminate.
Defined.

End validators.

(** * Properties of [validation_method] *)

Section tagging.
Import Tagging.
Implicit Types (h : heap) (m : ref).

Lemma tags_of_Some h m f t tags :
  functions h !! m = Some f → tags_attr f = Some t → dicts h !! t = Some tags →
  tags_of m h = Some tags.
Proof. intros Hf Ht Htags. unfold tags_of. by rewrite Hf; simpl; rewrite Ht. Qed.

(** The call on a function that already carries [_tags]. *)
Lemma validation_method_tagged h m f t tags :
  functions h !! m = Some f → tags_attr f = Some t → dicts h !! t = Some tags →
  validation_method m h =
    Some (m, Heap (functions h) (<[t := <["validation" := true]> tags]> (dicts h))).
Proof.
  intros Hf Ht Htags. unfold validation_method, hasattr_tags, setitem_tags.
  repeat first [rewrite Hf | rewrite Ht | rewrite Htags | progress simpl].
  done.
Qed.

(** The call on a function without [_tags]. *)
Lemma validation_method_untagged h m f :
  functions h !! m = Some f → tags_attr f = None →
  validation_method m h =
    Some (m, Heap (<[m := FunctionObject (code f) (Some (fresh (dom (dicts h))))]> (functions h))
                  (<[fresh (dom (dicts h)) := {["validation" := true]}]> (dicts h))).
Proof.
  intros Hf Ht. unfold validation_method, hasattr_tags, setattr_tags_empty, setitem_tags.
  repeat first [rewrite Hf | rewrite Ht | rewrite lookup_insert_eq | progress simpl].
  by rewrite insert_insert_eq, insert_empty.
Qed.

(** C10: on a function object of the heap, [validation_method] returns the
    reference it was given; it creates no function object and leaves the
    others, and the code of this one, as they were; afterwards the
    function's tags map ["validation"] to [True] and agree with the tags it
    had before on every other key; and a second application changes nothing
    any more. *)
Theorem validation_method_spec h m :
  function_at h m →
  ∃ h',
    validation_method m h = Some (m, h') ∧
    dom (functions h') = dom (functions h) ∧
    (∀ m', m' ≠ m → functions h' !! m' = functions h !! m') ∧
    code <$> functions h' !! m = code <$> functions h !! m ∧
    (∃ tags', tags_of m h' = Some tags' ∧
       tags' !! "validation" = Some true ∧
       ∀ tags k, tags_of m h = Some tags → k ≠ "validation" →
                 tags' !! k = tags !! k) ∧
    validation_method m h' = Some (m, h').
Proof.
  intros (f & Hf & Hwf). destruct (tags_attr f) as [t|] eqn:Ht.
  - destruct (Hwf t eq_refl) as [tags Htags].
    eexists. split; [by eapply validation_method_tagged|].
    cbn [functions dicts]. split; [done|]. split; [done|]. split; [done|]. split.
    + exists (<["validation" := true]> tags). split; [|split].
      * eapply tags_of_Some; [done..|]. apply lookup_insert_eq.
      * apply lookup_insert_eq.
      * intros tags0 k Hold Hk.
        rewrite (tags_of_Some _ _ _ _ _ Hf Ht Htags) in Hold.
        injection Hold as <-. by rewrite lookup_insert_ne.
    + erewrite validation_method_tagged; [|done..|apply lookup_insert_eq].
      cbn [functions dicts]. by rewrite !insert_insert_eq.
  - eexists. split; [by eapply validation_method_untagged|].
    cbn [functions dicts]. split; [|split; [|split; [|split]]].
    + rewrite dom_insert_L. apply elem_of_dom_2 in Hf.
      by apply subseteq_union_1_L, singleton_subseteq_l.
    + intros m' Hne. by rewrite lookup_insert_ne.
    + by rewrite lookup_insert_eq, Hf.
    + exists {["validation" := true]}. split; [|split].
      * eapply tags_of_Some; [apply lookup_insert_eq|done|apply lookup_insert_eq].
      * apply lookup_singleton_eq.
      * intros tags0 k Hold. unfold tags_of in Hold.
        rewrite Hf in Hold. simpl in Hold. by rewrite Ht in Hold.
    + erewrite validation_method_tagged;
        [|apply lookup_insert_eq|done|apply lookup_insert_eq].
      cbn [functions dicts].
      by rewrite !insert_insert_eq, insert_singleton_eq.
Qed.

Lemma function_at_untagged_heap : function_at untagged_heap 0%nat.
Proof. eexists. split; [reflexivity|]. intros t [=]. Qed.

Lemma validation_method_spec_witness :
  ∃ h',
    validation_method 0%nat untagged_heap = Some (0%nat, h') ∧
    dom (functions h') = dom (functions untagged_heap) ∧
    (∀ m', m' ≠ 0%nat → functions h' !! m' = functions untagged_heap !! m') ∧
    code <$> functions h' !! 0%nat = code <$> functions untagged_heap !! 0%nat ∧
    (∃ tags', tags_of 0%nat h' = Some tags' ∧
       tags' !! "validation" = Some true ∧
       ∀ tags k, tags_of 0%nat untagged_heap = Some tags → k ≠ "validation" →
                 tags' !! k = tags !! k) ∧
    validation_method 0%nat h' = Some (0%nat, h').
Proof. apply (validation_method_spec untagged_heap 0%nat), function_at_untagged_heap. Defined.

(** An existing tag survives, next to the new one. *)
Example validation_method_keeps_tags :
  (validation_method 0%nat tagged_heap ≫= λ '(m, h'), tags_of m h')
  = Some {[ "slow" := false; "validation" := true ]}.
Proof. vm_compute. reflexivity. Qed.

(** *** The heap around the decorated function *)

Lemma tags_of_ref h m : tags_of m h = tags_ref m h ≫= λ t, dicts h !! t.
Proof.
  unfold tags_of, tags_ref. destruct (functions h !! m) as [f|]; [|done].
  simpl. by destruct (tags_attr f).
Qed.

(** What a successful call has done, by cases on the attribute. *)
Lemma validation_method_Some h m r h' :
  validation_method m h = Some (r, h') →
  r = m ∧ ∃ f, functions h !! m = Some f ∧
    ((tags_attr f = None ∧
      h' = Heap (<[m := FunctionObject (code f) (Some (fresh (dom (dicts h))))]> (functions h))
                (<[fresh (dom (dicts h)) := {["validation" := true]}]> (dicts h))) ∨
     (∃ t tags, tags_attr f = Some t ∧ dicts h !! t = Some tags ∧
      h' = Heap (functions h) (<[t := <["validation" := true]> tags]> (dicts h)))).
Proof.
  intros Hcall.
  destruct (functions h !! m) as [f|] eqn:Hf.
  - destruct (tags_attr f) as [t|] eqn:Ht.
    + destruct (dicts h !! t) as [tags|] eqn:Htags.
      * rewrite (validation_method_tagged _ _ _ _ _ Hf Ht Htags) in Hcall.
        injection Hcall as <- <-. split; [done|]. exists f. split; [done|].
        right. by exists t, tags.
      * unfold validation_method, hasattr_tags, setitem_tags in Hcall.
        repeat first [rewrite Hf in Hcall | rewrite Ht in Hcall
                     | rewrite Htags in Hcall | progress simpl in Hcall].
        done.
    + rewrite (validation_method_untagged _ _ _ Hf Ht) in Hcall.
      injection Hcall as <- <-. split; [done|]. exists f. split; [done|].
      by left.
  - unfold validation_method, hasattr_tags in Hcall. by rewrite Hf in Hcall.
Qed.

Lemma fresh_dict_unused h m f t :
  heap_wf h → functions h !! m = Some f → tags_attr f = Some t →
  t ≠ fresh (dom (dicts h)).
Proof.
  intros Hwf Hf Ht ->. apply (is_fresh (dom (dicts h))).
  apply elem_of_dom. by eapply Hwf.
Qed.

Lemma validation_method_wf h m r h' :
  heap_wf h → validation_method m h = Some (r, h') → heap_wf h'.
Proof.
  intros Hwf (-> & f & Hf & [[Ht ->]|(t & tags & Ht & Htags & ->)])%validation_method_Some
    m' f' t'; cbn [functions dicts].
  - destruct (decide (m' = m)) as [->|Hne].
    + rewrite lookup_insert_eq. intros [= <-] [= <-]. by rewrite lookup_insert_eq.
    + rewrite lookup_insert_ne by done. intros Hf' Ht'.
      rewrite lookup_insert_ne by (symmetry; by eapply fresh_dict_unused).
      by eapply Hwf.
  - intros Hf' Ht'. destruct (decide (t = t')) as [->|Hne].
    + by rewrite lookup_insert_eq.
    + rewrite lookup_insert_ne by done. by eapply Hwf.
Qed.

Lemma validation_method_other h m r h' m' :
  heap_wf h → validation_method m h = Some (r, h') →
  m' ≠ m → ¬ shares_tags h m m' →
  functions h' !! m' = functions h !! m' ∧ tags_of m' h' = tags_of m' h.
Proof.
  intros Hwf (-> & f & Hf & [[Ht ->]|(t & tags & Ht & Htags & ->)])%validation_method_Some
    Hne Hshare.
  - cbn [functions]. split; [by rewrite lookup_insert_ne|].
    unfold tags_of. cbn [functions dicts]. rewrite lookup_insert_ne by done.
    destruct (functions h !! m') as [f'|] eqn:Hf'; [|done]. simpl.
    destruct (tags_attr f') as [t'|] eqn:Ht'; [|done]. simpl.
    rewrite lookup_insert_ne; [done|].
    symmetry. by eapply fresh_dict_unused.
  - split; [done|]. unfold tags_of. cbn [functions dicts].
    destruct (functions h !! m') as [f'|] eqn:Hf'; [|done]. simpl.
    destruct (tags_attr f') as [t'|] eqn:Ht'; [|done]. simpl.
    rewrite lookup_insert_ne; [done|]. intros <-. apply Hshare.
    exists t. unfold tags_ref. rewrite Hf, Hf'. simpl. by rewrite Ht'.
Qed.

(** X9: decorating [m] is invisible from any other function that does not
    share its tag dict with [m]: that function's object and its tags are
    after the call what they were before.  A function that had no [_tags]
    gets a dict of its own, so that nothing else changes at all. *)
Theorem validation_method_frame h m r h' m' :
  heap_wf h → validation_method m h = Some (r, h') →
  m' ≠ m → ¬ shares_tags h m m' →
  functions h' !! m' = functions h !! m' ∧ tags_of m' h' = tags_of m' h.
Proof. apply validation_method_other. Qed.

(** X10: the tag is written into the dict, not into a copy of it: a function
    whose [_tags] is the same dict as that of [m] carries the tag as well
    once [m] has been decorated, and its tags are those of [m]. *)
Theorem validation_method_tags_shared h m r h' m' :
  shares_tags h m m' → validation_method m h = Some (r, h') →
  tags_of m' h' = tags_of m h' ∧
  ∃ tags, tags_of m' h' = Some tags ∧ tags !! "validation" = Some true.
Proof.
  intros (t & Hm & Hm') Hcall.
  apply validation_method_Some in Hcall
    as (-> & f & Hf & [[Ht ->]|(t0 & tags & Ht & Htags & ->)]).
  - unfold tags_ref in Hm. rewrite Hf in Hm. simpl in Hm. congruence.
  - assert (t0 = t) as ->.
    { unfold tags_ref in Hm. rewrite Hf in Hm. simpl in Hm. congruence. }
    assert (∀ x, tags_ref x h = Some t →
              tags_of x (Heap (functions h) (<[t := <["validation" := true]> tags]> (dicts h)))
              = Some (<["validation" := true]> tags)) as Hread.
    { intros x Hx. rewrite tags_of_ref. unfold tags_ref in *.
      cbn [functions dicts]. rewrite Hx. simpl. apply lookup_insert_eq. }
    rewrite !Hread by done. split; [done|].
    eexists. split; [done|]. apply lookup_insert_eq.
Qed.

(** *** Decorating the methods of a module *)

Lemma decorate_untagged ms : ∀ h,
  heap_wf h → NoDup ms →
  (∀ m, m ∈ ms → ∃ f, functions h !! m = Some f ∧ tags_attr f = None) →
  ∃ h', decorate ms h = Some h' ∧ heap_wf h' ∧
    dom (dicts h) ⊆ dom (dicts h') ∧
    (∀ m', m' ∉ ms →
       functions h' !! m' = functions h !! m' ∧ tags_of m' h' = tags_of m' h) ∧
    (∀ m, m ∈ ms → ∃ t, tags_ref m h' = Some t ∧ (t ∉ dom (dicts h)) ∧
       dicts h' !! t = Some {["validation" := true]}) ∧
    (∀ m1 m2, m1 ∈ ms → m2 ∈ ms → m1 ≠ m2 → ¬ shares_tags h' m1 m2).
Proof.
  induction ms as [|m ms IH]; intros h Hwf Hnodup Hun.
  - exists h. do 4 (split; [done|]). split.
    + intros m Hm. by apply elem_of_nil in Hm.
    + intros m1 m2 Hm. by apply elem_of_nil in Hm.
  - apply NoDup_cons in Hnodup as [Hm Hnodup].
    destruct (Hun m) as (f & Hf & Ht); [left|].
    pose proof (validation_method_untagged _ _ _ Hf Ht) as Hcall.
    set (t0 := fresh (dom (dicts h))) in *.
    set (h1 := Heap (<[m := FunctionObject (code f) (Some t0)]> (functions h))
                    (<[t0 := {["validation" := true]}]> (dicts h))) in *.
    assert (heap_wf h1) as Hwf1 by by eapply validation_method_wf.
    assert (∀ m', m' ≠ m →
              functions h1 !! m' = functions h !! m' ∧ tags_of m' h1 = tags_of m' h)
      as Hframe1.
    { intros m' Hne. eapply validation_method_other; [done..|].
      intros (t & Hx & _). unfold tags_ref in Hx. rewrite Hf in Hx.
      simpl in Hx. congruence. }
    destruct (IH h1 Hwf1 Hnodup) as (h' & Hdec & Hwf' & Hdom & Hout & Hin & Hsep).
    { intros m' Hm'. destruct (Hun m') as (f' & Hf' & Ht'); [by right|].
      exists f'. split; [|done]. rewrite <- Hf'. apply Hframe1. by intros ->. }
    assert (dom (dicts h) ⊆ dom (dicts h1)) as Hdom1.
    { unfold h1. cbn [dicts]. rewrite dom_insert_L. apply union_subseteq_r. }
    assert (tags_ref m h' = Some t0 ∧ dicts h' !! t0 = Some {["validation" := true]})
      as [Href Hdict].
    { destruct (Hout m Hm) as [Hfun Htags].
      assert (tags_ref m h' = Some t0) as Hr.
      { unfold tags_ref. rewrite Hfun. unfold h1. cbn [functions].
        by rewrite lookup_insert_eq. }
      split; [done|]. rewrite tags_of_ref, Hr in Htags. simpl in Htags.
      rewrite Htags, tags_of_ref. unfold tags_ref, h1. cbn [functions dicts].
      rewrite lookup_insert_eq. simpl. by rewrite lookup_insert_eq. }
    exists h'. split; [|split; [done|split; [|split; [|split]]]].
    + cbn [decorate]. by rewrite Hcall.
    + by etrans.
    + intros m' Hm'. apply not_elem_of_cons in Hm' as [Hne Hm'].
      destruct (Hout m' Hm') as [-> ->]. by apply Hframe1.
    + intros m1 [->|Hm1]%elem_of_cons.
      * exists t0. split; [done|]. split; [apply is_fresh|done].
      * destruct (Hin m1 Hm1) as (t & Hr & Hfresh & Hd).
        exists t. split; [done|]. split; [|done].
        intros Hold. by apply Hfresh, Hdom1.
    + assert (∀ m2, m2 ∈ ms → ¬ ∃ t, tags_ref m h' = Some t ∧ tags_ref m2 h' = Some t)
        as Hfirst.
      { intros m2 Hm2 (t & Hr & Hr2). rewrite Href in Hr. injection Hr as <-.
        destruct (Hin m2 Hm2) as (t & Hr & Hfresh & _).
        rewrite Hr2 in Hr. injection Hr as <-. apply Hfresh.
        unfold h1. cbn [dicts]. rewrite dom_insert_L.
        by apply elem_of_union_l, elem_of_singleton. }
      intros m1 m2 [->|Hm1]%elem_of_cons [->|Hm2]%elem_of_cons Hne.
      * done.
      * by apply Hfirst.
      * intros (t & Hr1 & Hr2). apply (Hfirst m1 Hm1). by exists t.
      * by apply Hsep.
Qed.

(** X11: decorating distinct functions that carry no tags yet, in any heap
    without dangling attributes, succeeds; afterwards each of them has the
    tags [{"validation": True}] and nothing more, in a dict of its own, and
    the functions that were not decorated have the tags they had. *)
Theorem decorate_tags_each h ms :
  heap_wf h → NoDup ms →
  (∀ m, m ∈ ms → ∃ f, functions h !! m = Some f ∧ tags_attr f = None) →
  ∃ h', decorate ms h = Some h' ∧
    (∀ m, m ∈ ms → tags_of m h' = Some {["validation" := true]}) ∧
    (∀ m1 m2, m1 ∈ ms → m2 ∈ ms → m1 ≠ m2 → ¬ shares_tags h' m1 m2) ∧
    (∀ m', m' ∉ ms → tags_of m' h' = tags_of m' h).
Proof.
  intros Hwf Hnodup Hun.
  destruct (decorate_untagged ms h Hwf Hnodup Hun)
    as (h' & Hdec & _ & _ & Hout & Hin & Hsep).
  exists h'. split; [done|]. split; [|split; [done|]].
  - intros m Hm. destruct (Hin m Hm) as (t & Hr & _ & Hd).
    rewrite tags_of_ref, Hr. done.
  - intros m' Hm'. by apply Hout.
Qed.

(** *** The extra properties at the module's heap *)

Lemma heap_wf_module_heap : heap_wf module_heap.
Proof.
  assert (map_Forall (λ _ f, tags_attr f = None) (functions module_heap)) as Hall.
  { apply (bool_decide_unpack _). vm_compute. exact I. }
  intros m f t Hf Ht. by rewrite (Hall m f Hf) in Ht.
Qed.

Lemma module_heap_untagged m :
  m ∈ [0; 1; 2; 3]%nat →
  ∃ f, functions module_heap !! m = Some f ∧ tags_attr f = None.
Proof.
  intros Hm.
  repeat (apply elem_of_cons in Hm as [->|Hm]; [eexists; split; reflexivity|]).
  by apply elem_of_nil in Hm.
Qed.

Lemma validation_method_frame_witness :
  match validation_method 0%nat module_heap with
  | Some (_, h') =>
      functions h' !! 1%nat = functions module_heap !! 1%nat ∧
      tags_of 1%nat h' = tags_of 1%nat module_heap
  | None => False
  end.
Proof.
  destruct (validation_method 0%nat module_heap) as [[r h']|] eqn:Hcall.
  - apply (validation_method_frame module_heap 0%nat r h' 1%nat
             heap_wf_module_heap Hcall).
    + discriminate.
    + intros (t & Ht & _). vm_compute in Ht. discriminate.
  - vm_compute in Hcall. discriminate.
Defined.

Lemma validation_method_tags_shared_witness :
  match validation_method 0%nat shared_heap with
  | Some (_, h') =>
      tags_of 1%nat h' = tags_of 0%nat h' ∧
      ∃ tags, tags_of 1%nat h' = Some tags ∧ tags !! "validation" = Some true
  | None => False
  end.
Proof.
  destruct (validation_method 0%nat shared_heap) as [[r h']|] eqn:Hcall.
  - apply (validation_method_tags_shared shared_heap 0%nat r h' 1%nat); [|done].
    exists 0%nat. split; reflexivity.
  - vm_compute in Hcall. discriminate.
Defined.

Lemma decorate_tags_each_witness :
  ∃ h', decorate [0; 1; 2; 3]%nat module_heap = Some h' ∧
    (∀ m, m ∈ [0; 1; 2; 3]%nat → tags_of m h' = Some {["validation" := true]}) ∧
    (∀ m1 m2, m1 ∈ [0; 1; 2; 3]%nat → m2 ∈ [0; 1; 2; 3]%nat → m1 ≠ m2 →
              ¬ shares_tags h' m1 m2) ∧
    (∀ m', m' ∉ [0; 1; 2; 3]%nat → tags_of m' h' = tags_of m' module_heap).
Proof.
  apply (decorate_tags_each module_heap [0; 1; 2; 3]%nat).
  - apply heap_wf_module_heap.
  - apply (bool_decide_unpack _). vm_compute. exact I.
  - apply module_heap_untagged.
Defined.

End tagging.

(** * Properties of the saturation registry and transforms *)

Section saturation.
Import Saturation.
Variable default_priors : curve → gmap string Prior.
Variable function : curve → Qc → (string → Qc) → Qc.
Implicit Types (c : curve) (h : heap) (s : string) (t : SaturationTransform).

(** *** Strings *)

Lemma append_assoc (a b c' : string) : (a +:+ b) +:+ c' = a +:+ b +:+ c'.
Proof.
  induction a as [|x a IH]; [done|].
  change (String x ((a +:+ b) +:+ c') = String x (a +:+ b +:+ c')).
  by rewrite IH.
Qed.

Lemma append_empty_r (a : string) : a +:+ "" = a.
Proof.
  induction a as [|x a IH]; [done|].
  change (String x (a +:+ "") = String x a). by rewrite IH.
Qed.

Lemma occurs_in_append_r (x a b : string) : occurs_in x b → occurs_in x (a +:+ b).
Proof.
  intros (pre & post & ->). exists (a +:+ pre), post. by rewrite append_assoc.
Qed.

Lemma occurs_in_concat (sep x : string) (l : list string) :
  x ∈ l → occurs_in x (String.concat sep l).
Proof.
  induction l as [|y l IH]; [by intros ?%elem_of_nil|].
  intros [->|Hin]%elem_of_cons.
  - destruct l as [|z l].
    + exists "", "". by rewrite append_empty_r.
    + by exists "", (sep +:+ String.concat sep (z :: l)).
  - destruct l as [|z l]; [by apply elem_of_nil in Hin|].
    change (occurs_in x (y +:+ sep +:+ String.concat sep (z :: l))).
    by apply occurs_in_append_r, occurs_in_append_r, IH.
Qed.

(** *** The name table *)

Lemma registered_names :
  fst <$> SATURATION_TRANSFORMATIONS =
  ["logistic"; "inverse_scaled_logistic"; "tanh"; "tanh_baselined";
   "michaelis_menten"; "hill"; "root"].
Proof. reflexivity. Qed.

Lemma lookup_name_registered c : lookup_name c ∈ fst <$> SATURATION_TRANSFORMATIONS.
Proof. rewrite registered_names. destruct c; set_solver. Qed.

Lemma registered_lookup_name s :
  s ∈ fst <$> SATURATION_TRANSFORMATIONS → ∃ c, s = lookup_name c.
Proof.
  rewrite registered_names, !elem_of_cons, elem_of_nil.
  intros [->|[->|[->|[->|[->|[->|[->|[]]]]]]]].
  - by exists LogisticSaturation.
  - by exists InverseScaledLogisticSaturation.
  - by exists TanhSaturation.
  - by exists TanhSaturationBaselined.
  - by exists MichaelisMentenSaturation.
  - by exists HillSaturation.
  - by exists RootSaturation.
Qed.

Lemma table_lookup c :
  (list_to_map SATURATION_TRANSFORMATIONS : gmap string curve) !! lookup_name c = Some c.
Proof. destruct c; vm_compute; reflexivity. Qed.

Lemma default_instance_registered c :
  default_instance default_priors (lookup_name c)
  = Ok (new default_priors c None None).
Proof. unfold default_instance. by rewrite table_lookup. Qed.

Lemma default_instance_unregistered s :
  (∀ c, s ≠ lookup_name c) →
  default_instance default_priors s = Err (UnknownTransform (unknown_message s)).
Proof.
  intros Hnot. unfold default_instance.
  rewrite not_elem_of_list_to_map_1; [done|].
  intros [c ->]%registered_lookup_name. by apply (Hnot c).
Qed.

(** C3: each of the seven canonical names resolves to a new object that is
    the default-constructed transform of the matching type; an instance
    resolves to itself, the heap being left as it was; any other string
    fails with [UnknownTransform], whose message names the string and then
    lists the seven valid names, each as an item of its own; in particular
    every valid name occurs in the message. *)
Theorem get_saturation_function_spec h :
  lookup_name <$>
    [LogisticSaturation; InverseScaledLogisticSaturation; TanhSaturation;
     TanhSaturationBaselined; MichaelisMentenSaturation; HillSaturation;
     RootSaturation]
  = ["logistic"; "inverse_scaled_logistic"; "tanh"; "tanh_baselined";
     "michaelis_menten"; "hill"; "root"] ∧
  (∀ c, ∃ r,
     _get_saturation_function default_priors (Name (lookup_name c)) h
       = Ok (r, <[r := new default_priors c None None]> h) ∧
     h !! r = None ∧
     curve_of (new default_priors c None None) = c ∧
     function_priors (new default_priors c None None) = default_priors c) ∧
  (∀ r, _get_saturation_function default_priors (Instance r) h = Ok (r, h)) ∧
  (∀ s, (∀ c, s ≠ lookup_name c) →
     ∃ message,
       _get_saturation_function default_priors (Name s) h
         = Err (UnknownTransform message) ∧
       message
         = "Unknown saturation function: " +:+ s +:+ ". Choose from " +:+
           String.concat ", "
             ["logistic"; "inverse_scaled_logistic"; "tanh"; "tanh_baselined";
              "michaelis_menten"; "hill"; "root"] ∧
       ∀ c, occurs_in (lookup_name c) message).
Proof.
  split; [done|]. split; [|split].
  - intros c. exists (fresh (dom h)).
    unfold _get_saturation_function. rewrite default_instance_registered.
    split; [done|]. split; [|split; [done|]].
    + apply not_elem_of_dom, is_fresh.
    + unfold new. cbn. by rewrite (left_id_L ∅ (∪)).
  - done.
  - intros s Hnot. exists (unknown_message s).
    unfold _get_saturation_function. rewrite default_instance_unregistered by done.
    split; [done|]. split; [done|]. intros c. unfold unknown_message.
    do 3 apply occurs_in_append_r.
    apply occurs_in_concat, lookup_name_registered.
Qed.

(** *** Serialisation *)

Lemma prior_from_to_dict (p : Prior) : prior_from_dict (prior_to_dict p) = p.
Proof. by destruct p. Qed.

Lemma override_prior_commute (p1 p2 : string) (d1 d2 : prior_dict)
    (priors : gmap string Prior) :
  p1 ≠ p2 →
  override_prior p1 d1 (override_prior p2 d2 priors)
  = override_prior p2 d2 (override_prior p1 d1 priors).
Proof. intros Hne. unfold override_prior. by apply insert_insert_ne. Qed.

(** Overriding one parameter after the other amounts to laying the
    deserialised priors over the base mapping. *)
Lemma map_fold_override_prior (ds : gmap string prior_dict) (base : gmap string Prior) :
  map_fold override_prior base ds = (prior_from_dict <$> ds) ∪ base.
Proof.
  induction ds as [|p d ds Hp IH] using map_ind.
  - by rewrite map_fold_empty, fmap_empty, (left_id_L ∅ (∪)).
  - rewrite map_fold_insert_L; [|by intros; apply override_prior_commute|done].
    rewrite IH, fmap_insert. unfold override_prior. by rewrite insert_union_l.
Qed.

Lemma saturation_from_dict_registered c (ds : gmap string prior_dict) :
  saturation_from_dict default_priors (SaturationDict (lookup_name c) ds)
  = Ok (new default_priors c (Some (prior_from_dict <$> ds)) None).
Proof.
  unfold saturation_from_dict. cbn [dict_lookup_name dict_priors].
  rewrite default_instance_registered. unfold new. cbn.
  by rewrite map_fold_override_prior, (left_id_L ∅ (∪)).
Qed.

(** C5: for every registered curve and every mapping of prior overrides,
    [saturation_from_dict] applied to the curve's name and the serialised
    priors succeeds with a transform equal, in curve, prior mapping and
    prefix, to the one constructed directly with those priors; a parameter
    the mapping does not mention keeps the curve's default. *)
Theorem saturation_from_dict_round_trip c (priors : gmap string Prior) :
  ∃ t,
    saturation_from_dict default_priors
      (SaturationDict (lookup_name c) (prior_to_dict <$> priors)) = Ok t ∧
    equal t (new default_priors c (Some priors) None) ∧
    ∀ param, priors !! param = None →
             function_priors t !! param = default_priors c !! param.
Proof.
  eexists. split; [apply saturation_from_dict_registered|].
  assert (prior_from_dict <$> (prior_to_dict <$> priors) = priors) as ->.
  { rewrite <- map_fmap_compose. rewrite <- (map_fmap_id priors) at 2.
    apply map_fmap_ext. intros ? p _. apply prior_from_to_dict. }
  split; [done|]. intros param Hnone. unfold new. cbn.
  by rewrite lookup_union_r.
Qed.

(** The dict of [test_saturation_from_dict]. *)
Example saturation_from_dict_michaelis_menten :
  let half_normal := MkPrior "HalfNormal" {[ "sigma" := Number 1 ]} in
  saturation_from_dict default_priors
    (SaturationDict "michaelis_menten"
       {[ "alpha" := PriorDict "HalfNormal" {[ "sigma" := Number 1 ]};
          "lam" := PriorDict "HalfNormal" {[ "sigma" := Number 1 ]} ]})
  = Ok (new default_priors MichaelisMentenSaturation
          (Some {[ "alpha" := half_normal; "lam" := half_normal ]}) None).
Proof.
  intros half_normal.
  rewrite (saturation_from_dict_registered MichaelisMentenSaturation).
  done.
Qed.

(** *** [sample_curve] *)

Section sample_curve.
Variables (t : SaturationTransform) (params : Dataset).




End sample_curve.

End saturation.

(** * The datasets of the test module *)

Section test_data.
Import Saturation.




(** The two assertions of [test_sample_curve_with_additional_dims], and the
    name [test_sample_curve_additional_dataset_variables] checks. *)
Example sample_curve_with_additional_dims :
  match sample_curve michaelis_menten_priors michaelis_menten menten
          mock_menten_parameters_with_additional_dim 1 with
  | Ok curve =>
      name curve = "saturation" ∧
      dims curve = [Chain; Draw; Grid; Param "channel"] ∧
      array_coords curve !! Param "channel"
        = Some [StrLabel "C1"; StrLabel "C2"; StrLabel "C3"] ∧
      array_coords curve !! Param "random_dim" = None
  | Err _ => False
  end.
Proof. vm_compute. repeat split. Qed.

(** [test_sample_curve_with_bad_max_value] *)
Example sample_curve_with_bad_max_value :
  sample_curve michaelis_menten_priors michaelis_menten menten
    mock_menten_parameters_with_additional_dim 0 = Err InvalidConfiguration ∧
  sample_curve michaelis_menten_priors michaelis_menten menten
    mock_menten_parameters_with_additional_dim (-1) = Err InvalidConfiguration.
Proof. split; reflexivity. Qed.

End test_data.

(** * Properties of the dataset builder of the test module *)

Section mock.
Import Saturation Mock.
Context {XrArray XrDataset : Type}.
Variable xr_DataArray :
  list nat → list string → gmap string (list label) → outcome XrArray.
Variable xr_Dataset : gmap string XrArray → outcome XrDataset.
Implicit Types (coords : gmap string (list label)) (dims : list string).

(** *** Comprehensions *)

Lemma for_each_Returns {A B} (f : A → outcome B) xs ys :
  for_each f xs = Returns ys ↔ Forall2 (λ x y, f x = Returns y) xs ys.
Proof.
  revert ys. induction xs as [|x xs IH]; intros ys; simpl.
  - split.
    + intros ?. simplify_eq. constructor.
    + intros Hall. by inversion Hall.
  - destruct (f x) as [y|e] eqn:Hx.
    + destruct (for_each f xs) as [ys'|e] eqn:Hxs.
      * split.
        -- intros ?. simplify_eq. constructor; [done|]. by apply IH.
        -- intros Hall. inversion Hall as [|x' y' xs' ys'' Hy Hys]; subst.
           apply IH in Hys. congruence.
      * split; [done|].
        intros Hall. inversion Hall as [|x' y' xs' ys'' Hy Hys]; subst.
        by apply IH in Hys.
    + split; [done|].
      intros Hall. inversion Hall as [|x' y' xs' ys'' Hy Hys]; subst. congruence.
Qed.

Lemma for_each_fmap {A B} (f : A → outcome B) (g : A → B) xs :
  (∀ x, x ∈ xs → f x = Returns (g x)) → for_each f xs = Returns (g <$> xs).
Proof.
  induction xs as [|x xs IH]; intros Hall; simpl; [done|].
  rewrite (Hall x) by left. rewrite IH; [done|].
  intros x' Hx'. apply Hall. by right.
Qed.

Lemma for_each_succeeds {A B} (f : A → outcome B) xs :
  (∀ x, x ∈ xs → raised (f x) = false) → ∃ ys, for_each f xs = Returns ys.
Proof.
  induction xs as [|x xs IH]; intros Hall; simpl; [by eexists|].
  assert (raised (f x) = false) as Hx by (apply Hall; left).
  destruct (f x) as [y|e]; [|done].
  destruct IH as [ys ->]; [|by eexists].
  intros x' Hx'. apply Hall. by right.
Qed.

Lemma for_each_raised {A B} (f : A → outcome B) xs :
  (∃ x, x ∈ xs ∧ raised (f x) = true) → raised (for_each f xs) = true.
Proof.
  induction xs as [|x xs IH]; intros (x0 & Hin & Hraise).
  { by apply elem_of_nil in Hin. }
  simpl. destruct (f x) as [y|e'] eqn:Hx; [|done].
  apply elem_of_cons in Hin as [->|Hin]; [by rewrite Hx in Hraise|].
  assert (raised (for_each f xs) = true) as Hrest by (apply IH; by exists x0).
  by destruct (for_each f xs).
Qed.

Lemma for_each_raises {A B} (f : A → outcome B) xs e :
  for_each f xs = Raises e → ∃ x, x ∈ xs ∧ f x = Raises e.
Proof.
  induction xs as [|x xs IH]; simpl; [done|].
  destruct (f x) as [y|e'] eqn:Hx.
  - destruct (for_each f xs) as [ys|e'']; [done|]. intros [= ->].
    destruct IH as (x' & Hin & Hx'); [done|]. exists x'. split; [by right|done].
  - intros [= ->]. exists x. split; [left|done].
Qed.

(** *** Dicts built item by item *)

Lemma foldl_insert_fresh {A} (items : list (string * A)) (acc : gmap string A) :
  NoDup items.*1 → (∀ k, k ∈ items.*1 → acc !! k = None) →
  foldl (λ acc item, <[item.1 := item.2]> acc) acc items = list_to_map items ∪ acc.
Proof.
  revert acc. induction items as [|[k v] items IH]; intros acc Hnodup Hfresh.
  - cbn. by rewrite (left_id_L ∅ (∪)).
  - cbn [fmap list_fmap fst] in Hnodup. apply NoDup_cons in Hnodup as [Hk Hnodup].
    cbn [foldl fst snd]. rewrite IH; [|done|].
    + cbn [list_to_map foldr uncurry fst snd].
      rewrite <- insert_union_l. symmetry. apply insert_union_r.
      by apply not_elem_of_list_to_map_1.
    + intros k' Hk'. rewrite lookup_insert_ne by (by intros ->).
      apply Hfresh. cbn. by right.
Qed.

Lemma dict_of_NoDup {A} (items : list (string * A)) :
  NoDup items.*1 → dict_of items = list_to_map items.
Proof.
  intros Hnodup. unfold dict_of. rewrite foldl_insert_fresh; [|done|done].
  by rewrite (right_id_L ∅ (∪)).
Qed.

Lemma foldl_insert_coords coords (dims : list string) (acc : gmap string (list label)) k :
  (∀ c, c ∈ dims → is_Some (coords !! c)) →
  foldl (λ acc item, <[item.1 := item.2]> acc) acc
        ((λ c, (c, default [] (coords !! c))) <$> dims) !! k
  = if decide (k ∈ dims) then coords !! k else acc !! k.
Proof.
  revert acc. induction dims as [|c dims IH]; intros acc Hall; [done|].
  cbn [fmap list_fmap foldl fst snd]. rewrite IH.
  2:{ intros c' Hc'. apply Hall. by right. }
  destruct (decide (k ∈ dims)) as [Hin|Hout].
  - by rewrite decide_True by by right.
  - destruct (decide (k = c)) as [->|Hne].
    + rewrite lookup_insert_eq, decide_True by left.
      destruct (Hall c) as [labels ->]; [left|done].
    + rewrite lookup_insert_ne by done. rewrite decide_False; [done|].
      by intros [?|?]%elem_of_cons.
Qed.

Lemma dict_of_coords coords dims :
  (∀ c, c ∈ dims → is_Some (coords !! c)) →
  dict_of ((λ c, (c, default [] (coords !! c))) <$> dims) = expected_coords coords dims.
Proof.
  intros Hall. apply map_eq. intros k. unfold dict_of, expected_coords.
  rewrite foldl_insert_coords by done. rewrite lookup_empty.
  destruct (decide (k ∈ dims)) as [Hin|Hout].
  - destruct (coords !! k) as [labels|] eqn:Hk.
    + symmetry. by apply map_lookup_filter_Some.
    + symmetry. apply map_lookup_filter_None. by left.
  - symmetry. apply map_lookup_filter_None. right. by intros ? _.
Qed.

(** *** One array *)

Lemma dict_getitem_raises {A} (d : gmap string A) k e :
  dict_getitem d k = Raises e → e = KeyError.
Proof. unfold dict_getitem. destruct (d !! k); congruence. Qed.

(** With every dim among the keys of [coords], the two comprehensions
    return and the constructor is called with the expected shape and
    coordinates. *)
Lemma ones_array_for_present coords dims :
  (∀ c, c ∈ dims → is_Some (coords !! c)) →
  ones_array_for xr_DataArray coords (dim_sizes coords) dims
  = xr_DataArray (expected_shape coords dims) dims (expected_coords coords dims).
Proof.
  intros Hall. unfold ones_array_for.
  rewrite (for_each_fmap _ (λ c, length (default [] (coords !! c)))).
  2:{ intros c [labels Hc]%Hall. unfold dict_getitem, dim_sizes.
      by rewrite lookup_fmap, Hc. }
  rewrite (for_each_fmap _ (λ c, (c, default [] (coords !! c)))).
  2:{ intros c [labels Hc]%Hall. unfold coords_item, dict_getitem.
      by rewrite Hc. }
  by rewrite dict_of_coords.
Qed.

(** With a dim that [coords] lacks, the look-up of its size fails before
    the constructor is called. *)
Lemma ones_array_for_missing coords dims c :
  c ∈ dims → coords !! c = None →
  ones_array_for xr_DataArray coords (dim_sizes coords) dims = Raises KeyError.
Proof.
  intros Hin Hnone. unfold ones_array_for.
  destruct (for_each (dict_getitem (dim_sizes coords)) dims) as [shape|e] eqn:Hshape.
  - exfalso. apply for_each_Returns in Hshape.
    apply list_elem_of_lookup in Hin as [i Hi].
    destruct (Forall2_lookup_l _ _ _ _ _ Hshape Hi) as (n & _ & Hn).
    unfold dict_getitem, dim_sizes in Hn. by rewrite lookup_fmap, Hnone in Hn.
  - apply for_each_raises in Hshape as (c' & _ & Hc').
    f_equal. by eapply dict_getitem_raises.
Qed.

(** X12: [create_mock_parameters], whatever xarray's constructors do.  When
    a variable is declared with a dimension that [coords] lacks the call
    raises, and the error is [KeyError] if [xr.DataArray] raises nothing.
    When every declared dimension is a key of [coords], [xr.DataArray] is
    called for each variable with its declared dims, one axis per dim as
    long as the labels of the dim, and the entries of [coords] under those
    dims; if these calls return, the result is that of [xr.Dataset] on the
    dict that holds their arrays under the names of the variables. *)
Theorem create_mock_parameters_spec coords
    (variable_dim_mapping : gmap string (list string)) :
  ((∃ c, used_dimension variable_dim_mapping c ∧ coords !! c = None) →
     raised (create_mock_parameters xr_DataArray xr_Dataset coords variable_dim_mapping)
       = true ∧
     ((∀ shape dims cs, raised (xr_DataArray shape dims cs) = false) →
        create_mock_parameters xr_DataArray xr_Dataset coords variable_dim_mapping
        = Raises KeyError)) ∧
  ((∀ c, used_dimension variable_dim_mapping c → is_Some (coords !! c)) →
   (∀ name dims, variable_dim_mapping !! name = Some dims →
      raised (xr_DataArray (expected_shape coords dims) dims
                           (expected_coords coords dims)) = false) →
   ∃ arrays,
     create_mock_parameters xr_DataArray xr_Dataset coords variable_dim_mapping
       = xr_Dataset arrays ∧
     ∀ name,
       Returns <$> arrays !! name
       = (λ dims, xr_DataArray (expected_shape coords dims) dims
                               (expected_coords coords dims))
           <$> variable_dim_mapping !! name).
Proof.
  unfold create_mock_parameters. cbv zeta. split.
  - intros (c & (name & dims & Hname & Hin) & Hnone).
    assert (named_array xr_DataArray coords (dim_sizes coords) (name, dims)
            = Raises KeyError) as Hfail.
    { unfold named_array. cbn [fst snd].
      by rewrite (ones_array_for_missing _ _ _ Hin Hnone). }
    assert (raised (for_each (named_array xr_DataArray coords (dim_sizes coords))
                      (map_to_list variable_dim_mapping)) = true) as Hraised.
    { apply for_each_raised. exists (name, dims).
      split; [by apply elem_of_map_to_list|]. by rewrite Hfail. }
    destruct (for_each _ (map_to_list variable_dim_mapping)) as [arrays|e] eqn:Hfor;
      [done|].
    split; [done|]. intros Hquiet. f_equal.
    apply for_each_raises in Hfor as ([name' dims'] & _ & He).
    unfold named_array, ones_array_for in He. cbn [fst snd] in He.
    destruct (for_each (dict_getitem _) dims') as [shape|e1] eqn:Hshape.
    + destruct (for_each (coords_item coords) dims') as [items|e2] eqn:Hitems.
      * specialize (Hquiet shape dims' (dict_of items)).
        by destruct (xr_DataArray shape dims' (dict_of items)).
      * injection He as <-. apply for_each_raises in Hitems as (c' & _ & Hc').
        unfold coords_item in Hc'.
        destruct (dict_getitem coords c') eqn:Hget; [done|].
        injection Hc' as <-. by eapply dict_getitem_raises.
    + injection He as <-. apply for_each_raises in Hshape as (c' & _ & Hc').
      by eapply dict_getitem_raises.
  - intros Hall Hquiet.
    assert (∀ name dims, variable_dim_mapping !! name = Some dims →
              ones_array_for xr_DataArray coords (dim_sizes coords) dims
              = xr_DataArray (expected_shape coords dims) dims
                             (expected_coords coords dims)) as Hcall.
    { intros name dims Hdims. apply ones_array_for_present.
      intros c Hc. apply Hall. by exists name, dims. }
    destruct (for_each_succeeds (named_array xr_DataArray coords (dim_sizes coords))
                (map_to_list variable_dim_mapping)) as [items Hitems].
    { intros [name dims] Hin%elem_of_map_to_list. unfold named_array. cbn [fst snd].
      rewrite (Hcall _ _ Hin). specialize (Hquiet _ _ Hin).
      by destruct (xr_DataArray _ dims _). }
    rewrite Hitems. exists (dict_of items). split; [done|].
    apply for_each_Returns in Hitems.
    assert (Forall2 (λ nd na, na.1 = nd.1 ∧
              xr_DataArray (expected_shape coords nd.2) nd.2
                           (expected_coords coords nd.2) = Returns na.2)
              (map_to_list variable_dim_mapping) items) as Hrel.
    { apply Forall2_same_length_lookup. split; [by eapply Forall2_length|].
      intros i [name dims] [name' a] Hnd Hna.
      pose proof (Forall2_lookup_lr _ _ _ _ _ _ Hitems Hnd Hna) as Hitem.
      assert (variable_dim_mapping !! name = Some dims) as Hdims.
      { apply elem_of_map_to_list, list_elem_of_lookup. by exists i. }
      unfold named_array in Hitem. cbn [fst snd] in *.
      rewrite (Hcall _ _ Hdims) in Hitem.
      destruct (xr_DataArray _ dims _); [|done]. by injection Hitem as <- <-. }
    assert (items.*1 = (map_to_list variable_dim_mapping).*1) as Hnames.
    { clear -Hrel. induction Hrel as [|?????? IH]; [done|].
      cbn. f_equal; [tauto|done]. }
    assert (NoDup items.*1) as Hnodup.
    { rewrite Hnames. apply NoDup_fst_map_to_list. }
    rewrite (dict_of_NoDup _ Hnodup). intros name.
    destruct (variable_dim_mapping !! name) as [dims|] eqn:Hdims; cbn.
    + apply elem_of_map_to_list, list_elem_of_lookup in Hdims as [i Hi].
      destruct (Forall2_lookup_l _ _ _ _ _ Hrel Hi) as ([name' a] & Hna & Heq & Ha).
      cbn [fst snd] in Heq, Ha. subst name'.
      rewrite (elem_of_list_to_map_1 items name a Hnodup).
      * cbn. by rewrite Ha.
      * apply list_elem_of_lookup. by exists i.
    + rewrite not_elem_of_list_to_map_1; [done|].
      rewrite Hnames. intros ([name' dims] & -> & Hin%elem_of_map_to_list)%list_elem_of_fmap.
      cbn in Hdims. congruence.
Qed.

(** The second fixture with constructors that record what they are given:
    three arrays, and the one on four dims has shape [(1, 500, 3, 2)]. *)
Example mock_menten_parameters_with_additional_dim_calls :
  match mock_menten_parameters_with_additional_dim
          (λ shape dims cs, Returns (shape, dims, cs)) Returns with
  | Returns arrays =>
      size arrays = 3%nat ∧
      fst <$> arrays !! "another_random_variable"
        = Some ([1; 500; 3; 2]%nat, ["chain"; "draw"; "channel"; "random_dim"]) ∧
      fst <$> arrays !! "saturation_alpha"
        = Some ([1; 500; 3]%nat, ["chain"; "draw"; "channel"])
  | Raises _ => False
  end.
Proof. vm_compute. repeat split. Qed.

End mock.
